(** * gitstart-contributor-guide: the complexity analyzer and the issue classifier

    A shallow embedding of [src/ai_engine/code_analyzer.py] and of
    [IssueDifficultyClassifier.predict] from [src/ml_models/issue_classifier.py],
    together with the properties of the scoring pipeline.

    Conventions of the embedding:
    - a Python [str] is a list of characters; a character is a code point
      below 256 (Rocq's [ascii]), so the text handled here is Latin-1 text;
    - a Python [float] is an IEEE-754 binary64 value ([spec_float] with
      precision 53 and maximal exponent 1024), all operations rounding to
      nearest, ties to even;
    - a Python [int] is a [Z];
    - a raised exception is the [Raise] case of [result];
    - the parser ([ast.parse]), the file system, the chat-completion service,
      the tokenizer and the Keras model are outside the repository: they are
      the fields of the records [runtime], [CodeAnalyzer] and
      [IssueDifficultyClassifier], and every property holds for all of them. *)

From Stdlib Require Import ZArith List Ascii String Lia Bool.
From Stdlib Require Import Floats.SpecFloat.
From Equations Require Import Equations.
From stdpp Require Import base option list strings gmap.
Import ListNotations.

Open Scope Z_scope.

(** ** Python values, exceptions and builtins *)

Module Py.

(** The exception classes that the modelled code can meet. *)
Inductive exn :=
| SyntaxError
| KeyError (key : string)
| IndexError
| ValueError
| OverflowError
| OSError
| APIError.

Inductive result (A : Type) :=
| Ok (a : A)
| Raise (e : exn).
Arguments Ok {A} a.
Arguments Raise {A} e.

#[export] Instance result_ret : MRet result := fun A a => Ok a.
#[export] Instance result_bind : MBind result := fun A B k m =>
  match m with
  | Ok a => k a
  | Raise e => Raise e
  end.

(** *** str *)

Definition str := list ascii.

Definition s (lit : string) : str := list_ascii_of_string lit.

(** The newline character, ['\n']. *)
Definition nl : ascii := ascii_of_nat 10.
(** The horizontal tab, ['\t']. *)
Definition tab : ascii := ascii_of_nat 9.

Definition in_range (lo hi : nat) (c : ascii) : bool :=
  let n := nat_of_ascii c in Nat.leb lo n && Nat.leb n hi.

(** [str.isspace] on one character: the code points below 256 that CPython
    classifies as whitespace are 0x09-0x0D, 0x1C-0x1F, 0x20, 0x85 and 0xA0. *)
Definition isspace (c : ascii) : bool :=
  in_range 9 13 c || in_range 28 32 c || in_range 133 133 c || in_range 160 160 c.

(** The decimal digits below 256 are ['0'] to ['9']; this is the class that
    [\d] denotes in a [str] pattern. *)
Definition isdecimal (c : ascii) : bool := in_range 48 57 c.

Definition digit_value (c : ascii) : Z := Z.of_nat (nat_of_ascii c) - 48.

Fixpoint drop_while (p : ascii -> bool) (t : str) : str :=
  match t with
  | [] => []
  | c :: t' => if p c then drop_while p t' else t
  end.

Fixpoint span (p : ascii -> bool) (t : str) : str * str :=
  match t with
  | [] => ([], [])
  | c :: t' => if p c then let '(a, b) := span p t' in (c :: a, b) else ([], t)
  end.

(** Both ends are scanned for characters that satisfy [p]. *)
Definition strip_with (p : ascii -> bool) (t : str) : str :=
  rev (drop_while p (rev (drop_while p t))).

(** [t.strip()] *)
Definition strip (t : str) : str := strip_with isspace t.

Definition mem (chars : str) (c : ascii) : bool :=
  existsb (Ascii.eqb c) chars.

(** [t.strip(chars)]: [chars] is a set of characters, not a prefix. *)
Definition strip_chars (chars : str) (t : str) : str := strip_with (mem chars) t.

(** [t.startswith(p)] *)
Fixpoint startswith (p t : str) : bool :=
  match p, t with
  | [], _ => true
  | a :: p', b :: t' => Ascii.eqb a b && startswith p' t'
  | _ :: _, [] => false
  end.

(** [t.split(sep)] for a separator of one character: one more piece than
    there are separators, empty pieces kept. *)
Fixpoint split (sep : ascii) (t : str) : list str :=
  match t with
  | [] => [[]]
  | c :: t' =>
      if Ascii.eqb c sep then [] :: split sep t'
      else match split sep t' with
           | piece :: pieces => (c :: piece) :: pieces
           | [] => [[c]]
           end
  end.

(** *** float *)

Definition prec : Z := 53.
Definition emax : Z := 1024.

Definition float := spec_float.

Definition float_mul : float -> float -> float := SFmul prec emax.
Definition float_add : float -> float -> float := SFadd prec emax.
Definition float_lt : float -> float -> bool := SFltb.
Definition float_le : float -> float -> bool := SFleb.

(** [float(z)] for an [int]: rounded to nearest; [OverflowError] when the
    rounded value does not fit (from 2^1024 - 2^970 on). *)
Definition float_of_int (z : Z) : result float :=
  match binary_normalize prec emax z 0 false with
  | S754_infinity _ => Raise OverflowError
  | f => Ok f
  end.

(** The binary64 value nearest to the decimal [n * 10^-k] ([n >= 0]), with
    sign [neg]: what reading the numeral gives ([strtod]).  The quotient of
    the two integers is rounded once. *)
Definition decimal_to_float (neg : bool) (n : Z) (k : nat) : float :=
  match n with
  | Zpos p =>
      SFdiv prec emax (S754_finite neg p 0)
                      (S754_finite false (Z.to_pos (10 ^ Z.of_nat k)) 0)
  | _ => S754_zero neg
  end.

(** The float literals of the source. *)
Definition f0_2 : float := decimal_to_float false 2 1.
Definition f0_3 : float := decimal_to_float false 3 1.
Definition f0_4 : float := decimal_to_float false 4 1.
Definition f0_5 : float := decimal_to_float false 5 1.
Definition f0_6 : float := decimal_to_float false 6 1.
Definition f4_0 : float := decimal_to_float false 40 1.
Definition f5_0 : float := decimal_to_float false 50 1.
Definition f0_0 : float := S754_zero false.
Definition f1_0 : float := decimal_to_float false 10 1.
(** The [int] literal [10] once it meets a float. *)
Definition f10 : float := decimal_to_float false 10 0.

(** The integer nearest to [n / d] ([d > 0]), ties to the even one. *)
Definition div_half_even (n d : Z) : Z :=
  let q := n / d in
  let r := n mod d in
  match 2 * r ?= d with
  | Lt => q
  | Gt => q + 1
  | Eq => if Z.even q then q else q + 1
  end.

(** [round(x, ndigits)] for [ndigits >= 0]: the exact binary value of [x] is
    rounded to [ndigits] decimals (ties to even), and the decimal obtained is
    read back as a float.  Infinities and NaN round to themselves. *)
Definition round (x : float) (ndigits : nat) : float :=
  match x with
  | S754_finite sg m e =>
      let num := Zpos m * 10 ^ Z.of_nat ndigits * 2 ^ Z.max e 0 in
      let den := 2 ^ Z.max (- e) 0 in
      decimal_to_float sg (div_half_even num den) ndigits
  | _ => x
  end.

Definition digits_value (t : str) : Z :=
  fold_left (fun acc c => 10 * acc + digit_value c) t 0.

(** [float(t)] on the numerals [digits] and [digits.digits], the only texts
    that reach it in this program; Python's [float] reads more spellings
    (signs, exponents, surrounding blanks), none of which is produced by the
    pattern of [_extract_score]. *)
Definition float_of_str (t : str) : result float :=
  match span isdecimal t with
  | ((_ :: _) as ip, []) => Ok (decimal_to_float false (digits_value ip) 0)
  | ((_ :: _) as ip, dot :: fp) =>
      if Ascii.eqb dot "." && negb (Nat.eqb (length fp) 0) && forallb isdecimal fp
      then Ok (decimal_to_float false (digits_value (ip ++ fp)) (length fp))
      else Raise ValueError
  | _ => Raise ValueError
  end.

(** [min(10, x)]: the second argument replaces the first only when it is
    smaller; the [int] 10 is turned into a float by the arithmetic that
    follows. *)
Definition min_10 (x : float) : float :=
  if float_lt x f10 then x else f10.

End Py.
Import Py.

(** ** Regular expressions, as far as the pattern of [_extract_score] needs *)

Module Re.

(** One-character items of a pattern. *)
Inductive atom :=
| Chr (c : ascii)    (* a literal character *)
| Digit.             (* [\d] *)

Inductive regex :=
| Atom (a : atom)
| Cat (r1 r2 : regex)
| Opt (r : regex)      (* [r?], greedy *)
| Plus (a : atom).     (* [a+], greedy *)

Definition atom_test (a : atom) (c : ascii) : bool :=
  match a with
  | Chr c' => Ascii.eqb c' c
  | Digit => isdecimal c
  end.

Definition or_else {A} (x y : option A) : option A :=
  match x with
  | Some _ => x
  | None => y
  end.

(** [a+] against [t]: take one more character while that leads to an overall
    match, otherwise stop here; [k] is what remains to be matched. *)
Fixpoint plus_atom {A} (a : atom) (t : str) (k : str -> option A) : option A :=
  match t with
  | c :: t' => if atom_test a c then or_else (plus_atom a t' k) (k t') else None
  | [] => None
  end.

(** The backtracking matcher: [r] is matched at the start of [t] and [k] is
    run on the rest; alternatives are tried in the order of the [re] module
    (greedy first) and the first overall success wins. *)
Fixpoint rmatch {A} (r : regex) (t : str) (k : str -> option A) : option A :=
  match r with
  | Atom a =>
      match t with
      | c :: t' => if atom_test a c then k t' else None
      | [] => None
      end
  | Cat r1 r2 => rmatch r1 t (fun t1 => rmatch r2 t1 k)
  | Opt r1 => or_else (rmatch r1 t k) (k t)
  | Plus a => plus_atom a t k
  end.

(** A pattern of the shape [(g)rest], matched at the start of [t]: the text
    of the group when the whole pattern matches. *)
Definition match_group (g rest : regex) (t : str) : option str :=
  rmatch g t (fun t1 =>
    rmatch rest t1 (fun _ => Some (take (length t - length t1) t))).

(** [re.search(pattern, t).group(1)]: the start positions are tried from
    left to right; [None] when no position matches. *)
Fixpoint search_group (g rest : regex) (t : str) : option str :=
  match match_group g rest t with
  | Some grp => Some grp
  | None =>
      match t with
      | [] => None
      | _ :: t' => search_group g rest t'
      end
  end.

(** The words of a pattern. *)
Inductive matches : regex -> str -> Prop :=
| m_atom a c : atom_test a c = true -> matches (Atom a) [c]
| m_cat r1 r2 w1 w2 : matches r1 w1 -> matches r2 w2 -> matches (Cat r1 r2) (w1 ++ w2)
| m_opt_none r : matches (Opt r) []
| m_opt_some r w : matches r w -> matches (Opt r) w
| m_plus_one a c : atom_test a c = true -> matches (Plus a) [c]
| m_plus_more a c w : atom_test a c = true -> matches (Plus a) w -> matches (Plus a) (c :: w).

End Re.

(** ** The syntax trees that [ast.parse] returns *)

Module Ast.

(** The node classes of the [ast] module that matter here, and a case for
    every other class.  No class below is a subclass of another one, so
    [isinstance(n, ast.C)] is a test on the class of [n]. *)
Inductive node_class :=
| Module_
| FunctionDef
| AsyncFunctionDef
| ClassDef
| If
| While
| For
| AsyncFor
| Try
| ExceptHandler
| With
| IfExp
| Return
| Assign
| Expr
| Call
| Name
| Constant
| Pass
| Other (name : string).

(** A node with its child nodes, in the order of [ast.iter_child_nodes]. *)
#[local] Unset Elimination Schemes.
Inductive node :=
| Node (cls : node_class) (children : list node).

#[local] Set Elimination Schemes.

Definition cls_of (n : node) : node_class := let '(Node c _) := n in c.
Definition children_of (n : node) : list node := let '(Node _ cs) := n in cs.

Definition is_FunctionDef (n : node) : bool :=
  match cls_of n with FunctionDef => true | _ => false end.

Definition is_ClassDef (n : node) : bool :=
  match cls_of n with ClassDef => true | _ => false end.

(** [isinstance(node, (ast.If, ast.While, ast.For, ast.ExceptHandler))] *)
Definition is_branch (n : node) : bool :=
  match cls_of n with
  | If | While | For | ExceptHandler => true
  | _ => false
  end.

Fixpoint size (n : node) : nat :=
  match n with
  | Node _ cs => S (list_sum (map size cs))
  end.

Definition forest_size (ns : list node) : nat := list_sum (map size ns).

(** The loop of [ast.walk]: [todo] is the deque; a node is taken on the left,
    its children are added on the right, and the node is yielded. *)
Equations? walk_queue (todo : list node) : list node by wf (forest_size todo) lt :=
  walk_queue [] := [];
  walk_queue (Node c cs :: rest) := Node c cs :: walk_queue (rest ++ cs).
Proof.
  unfold forest_size. rewrite map_app, list_sum_app. simpl. lia.
Qed.

(** [ast.walk(tree)], as the list of the nodes it yields. *)
Definition walk (tree : node) : list node := walk_queue [tree].

End Ast.
Import Ast.

(** ** [src/ai_engine/code_analyzer.py] *)

Module Analyzer.

(** What the module takes from its surroundings: [ast.parse], and [open]
    followed by [read]. *)
Record runtime := {
  ast_parse : str -> result node;
  open_read : str -> result str
}.

(** The arguments of [client.chat.completions.create]. *)
Record chat_request := {
  req_model : str;
  req_messages : list (str * str);     (* role, content *)
  req_temperature : float
}.

(** [self]: the model name and the client; [create] stands for
    [client.chat.completions.create(...)] up to
    [response.choices[0].message.content], for the one call that an analysis
    makes.  The service may answer the same request differently another time:
    no property below compares the outcomes of two calls. *)
Record CodeAnalyzer := {
  model : str;
  create : chat_request -> result str
}.

(** The dataclass [ComplexityScore]. *)
Record ComplexityScore := {
  score : float;
  metrics : gmap string Z;
  suggestions : list str;
  suitable_for_beginner : bool
}.

(** The dictionary that [_ai_analysis] returns; its two values have
    different types, so it is a record with the two keys as fields. *)
Record ai_insights := {
  ai_score : float;
  ai_suggestions : list str
}.

(** [d[k]] *)
Definition getitem (d : gmap string Z) (k : string) : result Z :=
  match d !! k with
  | Some v => Ok v
  | None => Raise (KeyError k)
  end.

(** [z * f] for an [int] and a [float]: the [int] is converted first. *)
Definition int_mul_float (z : Z) (f : float) : result float :=
  zf ← float_of_int z; mret (float_mul zf f).

(** [len(xs)] *)
Definition len {A} (xs : list A) : Z := Z.of_nat (length xs).

Definition _cyclomatic_complexity (tree : node) : Z :=
  fold_left (fun complexity n => if is_branch n then complexity + 1 else complexity)
            (walk tree) 1.

(** The dictionary of the [except SyntaxError] branch. *)
Definition zero_metrics : gmap string Z :=
  {[ "lines_of_code"%string := 0; "functions"%string := 0;
     "classes"%string := 0; "complexity"%string := 0 ]}.

Definition _static_analysis (rt : runtime) (code : str) : result (gmap string Z) :=
  match ast_parse rt code with
  | Ok tree =>
      Ok {[ "lines_of_code"%string := len (split nl code);
            "functions"%string := len (List.filter is_FunctionDef (walk tree));
            "classes"%string := len (List.filter is_ClassDef (walk tree));
            "complexity"%string := _cyclomatic_complexity tree ]}
  | Raise SyntaxError => Ok zero_metrics
  | Raise e => Raise e
  end.

(** The pattern [(\d+(\.\d+)?)/10]: its first group, and what follows it. *)
Definition score_group : Re.regex :=
  Re.Cat (Re.Plus Re.Digit)
         (Re.Opt (Re.Cat (Re.Atom (Re.Chr ".")) (Re.Plus Re.Digit))).
Definition score_rest : Re.regex :=
  Re.Cat (Re.Atom (Re.Chr "/")) (Re.Cat (Re.Atom (Re.Chr "1")) (Re.Atom (Re.Chr "0"))).

Definition _extract_score (content : str) : result float :=
  match Re.search_group score_group score_rest content with
  | Some group1 => float_of_str group1
  | None => Ok f5_0
  end.

Definition _extract_suggestions (content : str) : list str :=
  let lines := split nl content in
  let suggestions :=
    map (fun line => strip (strip_chars (s "- ") line))
        (List.filter (fun line => startswith (s "-") (strip line)) lines) in
  take 5 suggestions.

Definition prompt (code : str) : str :=
  s "Analyze this code for complexity and provide:" ++ [nl] ++
  s "1. Overall complexity rating (0-10)" ++ [nl] ++
  s "2. Beginner-friendly aspects" ++ [nl] ++
  s "3. Challenging parts" ++ [nl] ++
  s "4. Suggestions for improvements" ++ [nl] ++
  [nl] ++
  s "Code:" ++ [nl] ++
  s "```python" ++ [nl] ++
  take 2000 code ++ s "  # Limit to first 2000 chars" ++ [nl] ++
  s "```" ++ [nl].

(** The request that [_ai_analysis] sends for [code]. *)
Definition request (self : CodeAnalyzer) (code : str) : chat_request :=
  {| req_model := model self;
     req_messages := [ (s "system", s "You are a code complexity expert.");
                       (s "user", prompt code) ];
     req_temperature := f0_3 |}.

Definition _ai_analysis (self : CodeAnalyzer) (code : str) : result ai_insights :=
  content ← create self (request self code);
  sc ← _extract_score content;
  mret {| ai_score := sc; ai_suggestions := _extract_suggestions content |}.

(** The local variable [static_score] of [_calculate_final_score]. *)
Definition static_score (static : gmap string Z) : result float :=
  complexity ← getitem static "complexity";
  a ← int_mul_float complexity f0_5;
  classes ← getitem static "classes";
  b ← int_mul_float classes f0_3;
  functions ← getitem static "functions";
  c ← int_mul_float functions f0_2;
  mret (min_10 (float_add (float_add a b) c)).

Definition _calculate_final_score (static : gmap string Z) (ai : ai_insights)
  : result float :=
  ss ← static_score static;
  let final := float_add (float_mul ss f0_4) (float_mul (ai_score ai) f0_6) in
  mret (round final 2).

Definition analyze_file (rt : runtime) (self : CodeAnalyzer) (file_path : str)
  : result ComplexityScore :=
  code ← open_read rt file_path;
  static_metrics ← _static_analysis rt code;
  ai ← _ai_analysis self code;
  final_score ← _calculate_final_score static_metrics ai;
  mret {| score := final_score;
          metrics := static_metrics;
          suggestions := ai_suggestions ai;
          suitable_for_beginner := float_le final_score f4_0 |}.

End Analyzer.
Import Analyzer.

(** ** [IssueDifficultyClassifier.predict] of [src/ml_models/issue_classifier.py] *)

Module Classifier.

Definition DIFFICULTY_LEVELS : list str :=
  [s "beginner"; s "intermediate"; s "advanced"; s "expert"].

(** [self]: the tokenizer, giving [tokens['input_ids']] for a text, and
    [model.predict], giving one row of class scores per input.  The scores
    are single-precision numbers; each of them is also a binary64 value, and
    is held as such. *)
Record IssueDifficultyClassifier := {
  tokenizer : str -> list Z;
  model_predict : list Z -> result (list (list float))
}.

(** [xs[i]] for [i >= 0] *)
Definition index {A} (xs : list A) (i : nat) : result A :=
  match xs !! i with
  | Some x => Ok x
  | None => Raise IndexError
  end.

Definition is_nan (x : float) : bool :=
  match x with S754_nan => true | _ => false end.

(** The scan of [numpy.argmax] over a row of floats: [mp] is the maximum so
    far, at [max_ind]; [i] is the position of the next element.  An element
    replaces the maximum when [not (x <= mp)], and a NaN ends the scan. *)
Fixpoint argmax_scan (mp : float) (max_ind i : nat) (rest : list float) : nat :=
  match rest with
  | [] => max_ind
  | x :: rest' =>
      if negb (float_le x mp)
      then if is_nan x then i else argmax_scan x i (S i) rest'
      else argmax_scan mp max_ind (S i) rest'
  end.

(** [np.argmax(row)]; an empty row raises [ValueError]. *)
Definition np_argmax (row : list float) : result nat :=
  match row with
  | [] => Raise ValueError
  | x :: rest => Ok (if is_nan x then 0%nat else argmax_scan x 0 1 rest)
  end.

Definition predict (self : IssueDifficultyClassifier) (issue_text : str)
  : result (str * float) :=
  let input_ids := tokenizer self issue_text in
  predictions ← model_predict self input_ids;
  row ← index predictions 0;
  predicted_class ← np_argmax row;
  confidence ← index row predicted_class;
  difficulty ← index DIFFICULTY_LEVELS predicted_class;
  mret (difficulty, confidence).

End Classifier.
Import Classifier.

(** ** Notions used to state the properties *)

Module Spec.

(** How many times [c] occurs in [t]. *)
Fixpoint count_char (c : ascii) (t : str) : nat :=
  match t with
  | [] => 0
  | x :: t' => ((if Ascii.eqb x c then 1 else 0) + count_char c t')%nat
  end.

(** How many nodes of a tree satisfy [p]: the node itself, and those of its
    subtrees, each node of the tree being visited once. *)
Fixpoint count_nodes (p : node -> bool) (n : node) : nat :=
  match n with
  | Node c cs =>
      ((if p (Node c cs) then 1 else 0) + list_sum (map (count_nodes p) cs))%nat
  end.

(** The nodes of a tree that pass the test of [_cyclomatic_complexity]. *)
Definition branch_nodes (tree : node) : nat := count_nodes is_branch tree.

(** A non-empty run of decimal digits. *)
Definition digits (ds : str) : Prop :=
  ds <> [] /\ Forall (fun c => isdecimal c = true) ds.

(** [n] is a number: an integer part [ip], and possibly a point followed by
    a fraction part [fp] ([fp] is empty when there is no point). *)
Definition numeral_parts (n ip fp : str) : Prop :=
  digits ip /\ ((fp = [] /\ n = ip) \/ (digits fp /\ n = ip ++ "."%char :: fp)).

(** The text [t] starts with the number [n] followed by [/10]. *)
Definition starts_with_score (n t : str) : Prop :=
  (exists ip fp, numeral_parts n ip fp) /\ exists post, t = n ++ s "/10" ++ post.

(** The first occurrence of a number followed by [/10] in [content] is the
    number [n]: one starts after [pre], and none starts earlier. *)
Definition first_score (content n : str) : Prop :=
  exists pre t,
    content = pre ++ t /\ starts_with_score n t /\
    forall pre' t' n', content = pre' ++ t' -> (length pre' < length pre)%nat ->
                       ~ starts_with_score n' t'.

Definition no_score (content : str) : Prop :=
  forall pre t n, content = pre ++ t -> ~ starts_with_score n t.

(** [min(10, complexity*0.5 + classCount*0.3 + functionCount*0.2)], on the
    three counts as floats. *)
Definition heuristic_score (complexity classes functions : float) : float :=
  min_10 (float_add (float_add (float_mul complexity f0_5) (float_mul classes f0_3))
                    (float_mul functions f0_2)).

(** [round(staticScore*0.4 + modelScore*0.6, 2)] *)
Definition fuse (static_score model_score : float) : float :=
  round (float_add (float_mul static_score f0_4) (float_mul model_score f0_6)) 2.

(** The first character of [line] that is not whitespace is the marker [-]. *)
Definition marker_line (line : str) : bool :=
  match drop_while isspace line with
  | c :: _ => Ascii.eqb c "-"
  | [] => false
  end.

(** A marker line without its marker and without the whitespace around what
    is left. *)
Definition strip_marker (line : str) : str := strip (drop 1 (strip line)).

(** The suggestions as the lines that begin with the marker, marker and
    surrounding whitespace stripped, in their order, five at most. *)
Definition marker_lines_stripped (content : str) : list str :=
  take 5 (map strip_marker (List.filter marker_line (split nl content))).

(** A run of the characters that [strip('- ')] removes. *)
Definition dash_run (t : str) : Prop :=
  Forall (fun c => mem (s "- ") c = true) t.

(** [t] is empty or starts with a character outside [p]. *)
Definition stops (p : ascii -> bool) (t : str) : Prop :=
  match t with
  | [] => True
  | c :: _ => p c = false
  end.

(** Neither end of [body] is a dash, a space or other whitespace. *)
Definition clean_ends (body : str) : Prop :=
  stops (mem (s "- ")) body /\ stops (mem (s "- ")) (rev body) /\
  stops isspace body /\ stops isspace (rev body).

(** A float between 0 and 1, as an entry of a softmax output is. *)
Definition is_probability (x : float) : Prop :=
  float_le f0_0 x = true /\ float_le x f1_0 = true.

End Spec.
Import Spec.

(** ** Sample surroundings, for the concrete runs *)

Module Samples.

(** A source text with one conditional in one loop, and its tree:
    [Module(body=[For(target=Name(ctx=Store()), iter=Name(ctx=Load()),
    body=[If(test=Name(ctx=Load()), body=[Pass()], orelse=[])], orelse=[])])]. *)
Definition loop_source : str :=
  s "for x in xs:" ++ [nl] ++ s "    if x:" ++ [nl] ++ s "        pass".

Definition loop_tree : node :=
  Node Module_
    [Node For [Node Name [Node (Other "Store") []];
               Node Name [Node (Other "Load") []];
               Node If [Node Name [Node (Other "Load") []]; Node Pass []]]].

(** A text that is not Python. *)
Definition broken_source : str := s "def f(:".

(** The results of [ast.parse] and of reading a file, for the texts and the
    paths of the examples; nothing else is asked of this table. *)
Definition sample_parse (code : str) : result node :=
  if bool_decide (code = []) then Ok (Node Module_ [])
  else if bool_decide (code = loop_source) then Ok loop_tree
  else if bool_decide (code = broken_source) then Raise SyntaxError
  else Raise ValueError.

Definition sample_read (path : str) : result str :=
  if bool_decide (path = s "empty.py") then Ok []
  else if bool_decide (path = s "loop.py") then Ok loop_source
  else if bool_decide (path = s "broken.py") then Ok broken_source
  else Raise OSError.

Definition sample_runtime : runtime :=
  {| ast_parse := sample_parse; open_read := sample_read |}.

(** An analyzer whose service answers every request with [reply]. *)
Definition replying (reply : str) : CodeAnalyzer :=
  {| model := s "gpt-4"; create := fun _ => Ok reply |}.

(** Metrics with the given complexity, and neither classes nor functions. *)
Definition metrics_of_complexity (complexity : Z) : gmap string Z :=
  {[ "lines_of_code"%string := 1; "functions"%string := 0;
     "classes"%string := 0; "complexity"%string := complexity ]}.

Definition sample_reply : str :=
  s "Score: 7.5/10" ++ [nl] ++ s "- Use better names" ++ [nl] ++ s "- Add tests".

(** A classifier whose model gives the class scores 0.1, 0.6, 0.2, 0.1 for
    every input. *)
Definition sample_classifier : IssueDifficultyClassifier :=
  {| tokenizer := fun _ => repeat 0 512;
     model_predict := fun _ =>
       Ok [[decimal_to_float false 1 1; decimal_to_float false 6 1;
            decimal_to_float false 2 1; decimal_to_float false 1 1]] |}.

End Samples.
Import Samples.

(** ** [FeatureExtractor.extract] of [src/ml_models/issue_classifier.py] *)

Module Features.

(** [c.lower()] for a code point below 256: the capital letters are [A]-[Z]
    and 0xC0-0xDE without the multiplication sign 0xD7; the small letter is 32
    further. *)
Definition lower_char (c : ascii) : ascii :=
  if in_range 65 90 c || (in_range 192 222 c && negb (in_range 215 215 c))
  then ascii_of_nat (nat_of_ascii c + 32)
  else c.

(** [t.lower()] *)
Definition lower (t : str) : str := map lower_char t.

(** [w in t]: [w] starts at some position of [t]. *)
Fixpoint contains (w t : str) : bool :=
  startswith w t ||
  match t with
  | [] => false
  | _ :: t' => contains w t'
  end.

(** The scan of [t.split()]: [cur] holds the characters of the word being
    read, last one first; whitespace ends a word and is dropped. *)
Fixpoint split_words (t cur : str) : list str :=
  match t with
  | [] => match cur with [] => [] | _ => [rev cur] end
  | c :: t' =>
      if isspace c
      then match cur with
           | [] => split_words t' []
           | _ => rev cur :: split_words t' []
           end
      else split_words t' (c :: cur)
  end.

(** [t.split()] *)
Definition split_whitespace (t : str) : list str := split_words t [].

Definition error_words : list str := [s "error"; s "bug"; s "exception"].
Definition complexity_word_list : list str :=
  [s "implement"; s "refactor"; s "optimize"; s "architecture"].

(** The values of the [features] dictionary, in the order of its keys:
    [length], [word_count], [has_code], [has_error], [complexity_words]. *)
Definition extract (text : str) : list Z :=
  [ len text;
    len (split_whitespace text);
    if contains (s "```") text then 1 else 0;
    if existsb (fun word => contains word (lower text)) error_words then 1 else 0;
    len (List.filter (fun word => contains word (lower text)) complexity_word_list) ].

End Features.
Import Features.

(** ** [classify_issue] of [src/api/main.py] *)

Module Api.

(** The dictionary that the endpoint returns. *)
Record classification := {
  difficulty : str;
  confidence : float;
  recommended_for_beginners : bool
}.

(** [a == b] on two [str] *)
Definition str_eq (a b : str) : bool := bool_decide (a = b).

(** The endpoint has no handler: what [predict] raises leaves it. *)
Definition classify_issue (issue_classifier : IssueDifficultyClassifier)
  (issue_text : str) : result classification :=
  '(d, c) ← predict issue_classifier issue_text;
  mret {| difficulty := d;
          confidence := c;
          recommended_for_beginners := str_eq d (s "beginner") |}.

End Api.
Import Api.

(** ** Further notions *)

Module Notions.

(** The nodes of a tree, parent first, then the subtrees from left to right. *)
Fixpoint preorder (n : node) : list node :=
  match n with
  | Node c cs => Node c cs :: concat (map preorder cs)
  end.

(** No character of [t] satisfies [p]. *)
Definition free_of (p : ascii -> bool) (t : str) : Prop :=
  Forall (fun c => p c = false) t.

Definition is_newline (c : ascii) : bool := Ascii.eqb c nl.

(** All the suggestions of a text, before the cut at five. *)
Definition all_suggestions (content : str) : list str :=
  map (fun line => strip (strip_chars (s "- ") line))
      (List.filter marker_line (split nl content)).

End Notions.
Import Notions.

(** A classifier whose model gives the row [row] for every input. *)
Definition answering (row : list float) : IssueDifficultyClassifier :=
  {| tokenizer := fun _ => repeat 0 512;
     model_predict := fun _ => Ok [row] |}.

(** ** The wording of the claims on branches, parse failures and markers *)

Module Wording.

(** The conditional, loop and exception-handler nodes, as the words say:
    [if] statements and conditional expressions; [while], [for] and
    [async for] loops; [except] handlers. *)
Definition conditional_loop_or_handler (n : node) : bool :=
  match cls_of n with
  | If | IfExp | While | For | AsyncFor | ExceptHandler => true
  | _ => false
  end.

(** The four classes of statements: [if], [while], [for] and [except]. *)
Definition if_while_for_or_except (n : node) : bool :=
  match n with
  | Node If _ | Node While _ | Node For _ | Node ExceptHandler _ => true
  | Node _ _ => false
  end.

(** [async def f():] with [async for x in xs: pass] as its body, and its tree:
    [Module(body=[AsyncFunctionDef(args=arguments(), body=[AsyncFor(
    target=Name(ctx=Store()), iter=Name(ctx=Load()), body=[Pass()])])])]. *)
Definition async_tree : node :=
  Node Module_
    [Node AsyncFunctionDef
       [Node (Other "arguments") [];
        Node AsyncFor [Node Name [Node (Other "Store") []];
                       Node Name [Node (Other "Load") []];
                       Node Pass []]]].

(** [x = a if b else c], and its tree: [Module(body=[Assign(targets=[Name(
    ctx=Store())], value=IfExp(test=Name(ctx=Load()), body=Name(ctx=Load()),
    orelse=Name(ctx=Load())))])]. *)
Definition ifexp_tree : node :=
  Node Module_
    [Node Assign [Node Name [Node (Other "Store") []];
                  Node IfExp [Node Name [Node (Other "Load") []];
                              Node Name [Node (Other "Load") []];
                              Node Name [Node (Other "Load") []]]]].

(** The NUL character. *)
Definition nul : ascii := ascii_of_nat 0.

(** A text with a NUL character in it. *)
Definition nul_source : str := s "x = 1" ++ [nul].

(** [ast.parse] as it is up to CPython 3.11 on a text that holds a NUL
    character: [ValueError: source code string cannot contain null bytes];
    the other texts as in [sample_parse]. *)
Definition parse_311 (code : str) : result node :=
  if existsb (Ascii.eqb nul) code then Raise ValueError else sample_parse code.

Definition runtime_311 : runtime :=
  {| ast_parse := parse_311;
     open_read := fun path => if bool_decide (path = s "nul.py") then Ok nul_source
                              else sample_read path |}.

(** The carriage return, ['\r']. *)
Definition cr : ascii := ascii_of_nat 13.

Definition is_dash (c : ascii) : bool := Ascii.eqb c "-".

(** The line is a marker after spaces only. *)
Definition space_indented (line : str) : Prop :=
  exists spaces rest,
    line = spaces ++ "-"%char :: rest /\ Forall (fun c => c = " "%char) spaces.

(** A run of whitespace characters. *)
Definition whitespace_run (t : str) : Prop :=
  Forall (fun c => isspace c = true) t.

End Wording.
Import Wording.

(** * Properties *)

(** ** Strings *)

Lemma split_nonempty (sep : ascii) (t : str) : split sep t <> [].
Proof.
  destruct t as [|c t]; simpl; [discriminate|].
  destruct (Ascii.eqb c sep); [discriminate|].
  destruct (split sep t); discriminate.
Qed.

Lemma split_length (sep : ascii) (t : str) :
  length (split sep t) = S (count_char sep t).
Proof.
  induction t as [|c t IH]; simpl; [reflexivity|].
  destruct (Ascii.eqb c sep); simpl.
  - now rewrite IH.
  - destruct (split sep t) as [|piece pieces] eqn:E.
    + now apply split_nonempty in E.
    + simpl in *. exact IH.
Qed.

(** ** The walk over the tree *)

Lemma filter_walk_queue (p : node -> bool) (todo : list node) :
  length (List.filter p (walk_queue todo)) = list_sum (map (count_nodes p) todo).
Proof.
  funelim (walk_queue todo); simp walk_queue; [reflexivity|].
  simpl List.filter. simpl map. simpl list_sum.
  specialize (H p). rewrite List.map_app, list_sum_app in H.
  destruct (p (Node c cs)); simpl; rewrite H; lia.
Qed.

Lemma filter_walk (p : node -> bool) (tree : node) :
  length (List.filter p (walk tree)) = count_nodes p tree.
Proof.
  unfold walk. rewrite filter_walk_queue. simpl. lia.
Qed.

Lemma count_loop (p : node -> bool) (ns : list node) (init : Z) :
  fold_left (fun acc n => if p n then acc + 1 else acc) ns init
  = init + Z.of_nat (length (List.filter p ns)).
Proof.
  revert init. induction ns as [|n ns IH]; intros init; simpl; [lia|].
  rewrite IH. destruct (p n); simpl length; lia.
Qed.

Example cyclomatic_complexity_nested :
  _cyclomatic_complexity loop_tree = 3.
Proof. reflexivity. Qed.

(** ** The matcher *)

Section Matcher.
Import Re.

Lemma plus_atom_sound {A} (a : atom) (t : str) (k : str -> option A) (x : A) :
  plus_atom a t k = Some x ->
  exists w rest, t = w ++ rest /\ matches (Plus a) w /\ k rest = Some x.
Proof.
  induction t as [|c t IH]; simpl; [discriminate|].
  destruct (atom_test a c) eqn:Hc; [|discriminate].
  destruct (plus_atom a t k) as [y|] eqn:Hp; simpl; intros Hx.
  - injection Hx as ->. destruct (IH eq_refl) as (w & rest & -> & Hw & Hk).
    exists (c :: w), rest. repeat split; [|exact Hk]. now apply m_plus_more.
  - exists [c], t. repeat split; [|exact Hx]. now apply m_plus_one.
Qed.

Lemma rmatch_sound (r : regex) :
  forall {A} (t : str) (k : str -> option A) (x : A),
    rmatch r t k = Some x ->
    exists w rest, t = w ++ rest /\ matches r w /\ k rest = Some x.
Proof.
  induction r as [a|r1 IH1 r2 IH2|r IH|a]; intros A t k x; simpl.
  - destruct t as [|c t]; [discriminate|].
    destruct (atom_test a c) eqn:Hc; [|discriminate]. intros Hk.
    exists [c], t. repeat split; [|exact Hk]. now apply m_atom.
  - intros H. apply IH1 in H as (w1 & t1 & -> & Hw1 & H).
    apply IH2 in H as (w2 & t2 & -> & Hw2 & H).
    exists (w1 ++ w2), t2. rewrite <- app_assoc. repeat split; [|exact H].
    now apply m_cat.
  - destruct (rmatch r t k) as [y|] eqn:Hr; simpl; intros Hx.
    + injection Hx as ->. apply IH in Hr as (w & rest & -> & Hw & Hk).
      exists w, rest. repeat split; [|exact Hk]. now apply m_opt_some.
    + exists [], t. repeat split; [|exact Hx]. apply m_opt_none.
  - apply plus_atom_sound.
Qed.

Lemma or_else_is_Some {A} (x y : option A) :
  is_Some x \/ is_Some y -> is_Some (or_else x y).
Proof.
  intros [[a ->]|Hy]; simpl; [eauto|]. destruct x; simpl; eauto.
Qed.

Lemma rmatch_complete (r : regex) (w : str) :
  matches r w ->
  forall {A} (rest : str) (k : str -> option A),
    is_Some (k rest) -> is_Some (rmatch r (w ++ rest) k).
Proof.
  induction 1 as [a c Hc|r1 r2 w1 w2 _ IH1 _ IH2|r|r w _ IH|a c Hc|a c w Hc _ IH];
    intros A rest k Hk; simpl.
  - now rewrite Hc.
  - rewrite <- app_assoc. apply IH1. now apply IH2.
  - apply or_else_is_Some. now right.
  - apply or_else_is_Some. left. now apply IH.
  - rewrite Hc. apply or_else_is_Some. now right.
  - rewrite Hc. apply or_else_is_Some. left. now apply (IH A rest k).
Qed.

(** A group that matches is a word of the group, followed by a word of the
    rest of the pattern. *)
Lemma match_group_sound (g rest : regex) (t grp : str) :
  match_group g rest t = Some grp ->
  matches g grp /\ exists w post, matches rest w /\ t = grp ++ w ++ post.
Proof.
  unfold match_group. intros H.
  apply rmatch_sound in H as (w1 & t1 & E & Hw1 & H).
  apply rmatch_sound in H as (w2 & t2 & -> & Hw2 & H).
  injection H as <-. subst t.
  rewrite length_app, Nat.add_sub, take_app_length.
  split; [exact Hw1|]. now exists w2, t2.
Qed.

Lemma match_group_complete (g rest : regex) (w1 w2 post : str) :
  matches g w1 -> matches rest w2 ->
  is_Some (match_group g rest (w1 ++ w2 ++ post)).
Proof.
  intros H1 H2. unfold match_group.
  apply (rmatch_complete _ _ H1). apply (rmatch_complete _ _ H2). eauto.
Qed.

End Matcher.

(** ** The pattern of [_extract_score] *)

Section ScorePattern.
Import Re.

Lemma span_app (p : ascii -> bool) (a b : str) :
  Forall (fun c => p c = true) a -> stops p b -> span p (a ++ b) = (a, b).
Proof.
  induction 1 as [|c a Hc _ IH]; intros Hb; simpl.
  - destruct b as [|c b]; simpl in *; [reflexivity|]. now rewrite Hb.
  - now rewrite Hc, IH.
Qed.

Lemma run_unique (p : ascii -> bool) (a1 a2 b1 b2 : str) :
  Forall (fun c => p c = true) a1 -> Forall (fun c => p c = true) a2 ->
  stops p b1 -> stops p b2 ->
  a1 ++ b1 = a2 ++ b2 -> a1 = a2 /\ b1 = b2.
Proof.
  intros H1 H2 S1 S2 E.
  pose proof (span_app p a1 b1 H1 S1) as E1.
  pose proof (span_app p a2 b2 H2 S2) as E2.
  rewrite E, E2 in E1. now injection E1.
Qed.

Lemma matches_plus_digit (w : str) : matches (Plus Digit) w <-> digits w.
Proof.
  split.
  - intros H. remember (Plus Digit) as r eqn:Er.
    induction H as [| | | |a c Hc|a c w Hc H IH]; try discriminate;
      injection Er as ->; simpl in Hc.
    + split; [discriminate|]. now constructor.
    + destruct (IH eq_refl) as [_ Hw]. split; [discriminate|]. now constructor.
  - intros [Hne Hw]. induction Hw as [|c w Hc Hw IH]; [contradiction|].
    destruct w as [|c' w].
    + now apply m_plus_one.
    + apply m_plus_more; [exact Hc|]. apply IH. discriminate.
Qed.

Lemma matches_score_group (w : str) :
  matches score_group w <-> exists ip fp, numeral_parts w ip fp.
Proof.
  unfold score_group. split.
  - intros H. inversion H as [|? ? ip w2 Hip Hopt| | | |]; subst.
    apply matches_plus_digit in Hip.
    inversion Hopt as [| |?|? ? Hfrac| |]; subst.
    + exists ip, []. split; [exact Hip|]. left. now rewrite app_nil_r.
    + inversion Hfrac as [|? ? dot fp Hdot Hfp| | | |]; subst.
      inversion Hdot as [? c Hc| | | | |]; subst. cbn [atom_test] in Hc.
      apply Ascii.eqb_eq in Hc as <-. apply matches_plus_digit in Hfp.
      exists ip, fp. split; [exact Hip|]. right. now split.
  - intros (ip & fp & Hip & [[-> ->]|[Hfp ->]]).
    + rewrite <- (app_nil_r ip). apply m_cat; [now apply matches_plus_digit|].
      apply m_opt_none.
    + apply m_cat; [now apply matches_plus_digit|]. apply m_opt_some.
      apply (m_cat _ _ ["."%char] fp); [now apply m_atom|].
      now apply matches_plus_digit.
Qed.

Lemma matches_score_rest (w : str) : matches score_rest w <-> w = s "/10".
Proof.
  unfold score_rest. split.
  - intros H. inversion H as [|? ? w1 w23 H1 H23| | | |]; subst.
    inversion H23 as [|? ? w2 w3 H2 H3| | | |]; subst.
    inversion H1 as [? c1 Hc1| | | | |]; subst.
    inversion H2 as [? c2 Hc2| | | | |]; subst.
    inversion H3 as [? c3 Hc3| | | | |]; subst.
    cbn [atom_test] in *. apply Ascii.eqb_eq in Hc1 as <-, Hc2 as <-, Hc3 as <-.
    reflexivity.
  - intros ->. apply (m_cat _ _ ["/"%char] (s "10")); [now apply m_atom|].
    apply (m_cat _ _ ["1"%char] ["0"%char]); now apply m_atom.
Qed.

Lemma match_group_score (t n : str) :
  match_group score_group score_rest t = Some n -> starts_with_score n t.
Proof.
  intros H. apply match_group_sound in H as (Hg & w & post & Hw & ->).
  apply matches_score_group in Hg. apply matches_score_rest in Hw as ->.
  split; [exact Hg|]. now exists post.
Qed.

Lemma score_match_group (t n : str) :
  starts_with_score n t -> is_Some (match_group score_group score_rest t).
Proof.
  intros (Hn & post & ->).
  apply match_group_complete; [now apply matches_score_group|].
  now apply matches_score_rest.
Qed.

(** At a given position there is at most one number followed by [/10]. *)
Lemma starts_with_score_unique (t n1 n2 : str) :
  starts_with_score n1 t -> starts_with_score n2 t -> n1 = n2.
Proof.
  intros ((ip1 & fp1 & [_ D1] & C1) & post1 & E1) ((ip2 & fp2 & [_ D2] & C2) & post2 & E2).
  assert (Hdot : isdecimal "."%char = false) by reflexivity.
  assert (Hsl : isdecimal "/"%char = false) by reflexivity.
  subst t.
  destruct C1 as [[-> ->]|[[_ F1] ->]], C2 as [[-> ->]|[[_ F2] ->]];
    rewrite <- ?app_assoc in E2; simpl in E2.
  - now apply (run_unique isdecimal) in E2 as [-> _].
  - apply (run_unique isdecimal) in E2 as [_ E]; try assumption. discriminate E.
  - apply (run_unique isdecimal) in E2 as [_ E]; try assumption. discriminate E.
  - apply (run_unique isdecimal) in E2 as [-> E]; try assumption.
    injection E as E.
    now apply (run_unique isdecimal) in E as [-> _].
Qed.

Lemma search_group_spec (content : str) :
  match search_group score_group score_rest content with
  | Some n => first_score content n
  | None => no_score content
  end.
Proof.
  induction content as [|c content IH]; cbn [search_group].
  - intros pre t n E Hs. symmetry in E. apply app_eq_nil in E as [-> ->].
    now apply score_match_group in Hs as [x Hx].
  - destruct (match_group score_group score_rest (c :: content)) as [n|] eqn:Hm.
    + exists [], (c :: content).
      split; [reflexivity|]. split; [now apply match_group_score|].
      intros pre' t' n' _ Hlt. simpl in Hlt. lia.
    + assert (H0 : forall n, ~ starts_with_score n (c :: content)).
      { intros n Hs. apply score_match_group in Hs as [x Hx]. congruence. }
      destruct (search_group score_group score_rest content) as [n|].
      * destruct IH as (pre & t & -> & Hs & Hmin).
        exists (c :: pre), t. split; [reflexivity|]. split; [exact Hs|].
        intros pre' t' n' E Hlt. destruct pre' as [|c' pre'].
        -- simpl in E. subst t'. apply H0.
        -- simpl in E, Hlt. injection E as _ E. apply (Hmin pre' t' n' E). lia.
      * intros pre t n E. destruct pre as [|c' pre].
        -- simpl in E. subst t. apply H0.
        -- simpl in E. injection E as _ E. now apply (IH pre t n).
Qed.

Lemma first_score_unique (content n1 n2 : str) :
  first_score content n1 -> first_score content n2 -> n1 = n2.
Proof.
  intros (pre1 & t1 & E1 & S1 & M1) (pre2 & t2 & E2 & S2 & M2).
  destruct (Nat.lt_trichotomy (length pre1) (length pre2)) as [Hlt|[Heq|Hgt]].
  - now destruct (M2 pre1 t1 n1 E1 Hlt).
  - rewrite E1 in E2. apply app_inj_1 in E2 as [_ ->]; [|exact Heq].
    now apply (starts_with_score_unique t2).
  - now destruct (M1 pre2 t2 n2 E2 Hgt).
Qed.

Lemma float_of_numeral (n ip fp : str) :
  numeral_parts n ip fp ->
  float_of_str n = Ok (decimal_to_float false (digits_value (ip ++ fp)) (length fp)).
Proof.
  intros [[Hne Hip] [[-> ->]|[[Hfne Hfp] ->]]]; unfold float_of_str.
  - rewrite <- (app_nil_r ip) at 1. rewrite span_app by (exact Hip || exact I).
    rewrite app_nil_r. now destruct ip.
  - rewrite span_app by (exact Hip || reflexivity).
    destruct ip as [|c ip]; [contradiction|].
    assert (Hall : forallb isdecimal fp = true).
    { clear Hfne. induction Hfp as [|x l Hx _ IH]; simpl; [reflexivity|].
      now rewrite Hx. }
    rewrite Hall. destruct fp; [contradiction|]. reflexivity.
Qed.

End ScorePattern.

Lemma extract_score_found (content n ip fp : str) :
  first_score content n -> numeral_parts n ip fp ->
  _extract_score content
  = Ok (decimal_to_float false (digits_value (ip ++ fp)) (length fp)).
Proof.
  intros Hfirst Hn. unfold _extract_score.
  pose proof (search_group_spec content) as Hs.
  destruct (Re.search_group score_group score_rest content) as [n'|].
  - rewrite (first_score_unique content n' n Hs Hfirst).
    now apply float_of_numeral.
  - destruct Hfirst as (pre & t & E & Hst & _). now destruct (Hs pre t n E).
Qed.

Lemma extract_score_default (content : str) :
  no_score content -> _extract_score content = Ok f5_0.
Proof.
  intros Hno. unfold _extract_score.
  pose proof (search_group_spec content) as Hs.
  destruct (Re.search_group score_group score_rest content) as [n'|]; [|reflexivity].
  destruct Hs as (pre & t & E & Hst & _). now destruct (Hno pre t n' E).
Qed.

Lemma score_cases (content : str) :
  (exists n, first_score content n) \/ no_score content.
Proof.
  pose proof (search_group_spec content) as Hs.
  destruct (Re.search_group score_group score_rest content) as [n'|]; eauto.
Qed.

(** [_extract_score] never raises. *)
Lemma extract_score_total (content : str) :
  exists f, _extract_score content = Ok f.
Proof.
  destruct (score_cases content) as [[n Hn]|Hno].
  - pose proof Hn as (_ & _ & _ & [(ip & fp & Hparts) _] & _).
    eexists. now apply (extract_score_found content n ip fp).
  - eexists. now apply extract_score_default.
Qed.

(** C7. [_extract_score] returns the number of the first occurrence of a
    number followed by [/10] in the reply (the binary64 value nearest to the
    decimal numeral), and 5.0 when there is no occurrence; every reply is in
    one of the two cases, so a score is always returned.  On the reply
    [Score: 7.5/10], [- Use better names], [- Add tests] the score is 7.5. *)
Theorem extract_score_first_occurrence :
  (forall content n ip fp,
      first_score content n -> numeral_parts n ip fp ->
      _extract_score content
      = Ok (decimal_to_float false (digits_value (ip ++ fp)) (length fp)))
  /\ (forall content, no_score content -> _extract_score content = Ok f5_0)
  /\ (forall content, (exists n, first_score content n) \/ no_score content)
  /\ _extract_score sample_reply = Ok (decimal_to_float false 75 1).
Proof.
  split; [exact extract_score_found|].
  split; [exact extract_score_default|].
  split; [exact score_cases|].
  vm_compute. reflexivity.
Qed.

Lemma extract_score_first_occurrence_witness :
  first_score sample_reply (s "7.5")
  /\ _extract_score sample_reply = Ok (decimal_to_float false 75 1).
Proof.
  assert (H : first_score sample_reply (s "7.5")) by exact (search_group_spec sample_reply).
  split; [exact H|].
  apply (proj1 extract_score_first_occurrence sample_reply (s "7.5") (s "7") (s "5") H).
  split; [split; [discriminate|repeat constructor]|].
  right. split; [|reflexivity]. split; [discriminate|repeat constructor].
Defined.


(** ** Static analysis *)

Lemma lookup_metrics (a b c d : Z) :
  let m : gmap string Z :=
    {[ "lines_of_code"%string := a; "functions"%string := b;
       "classes"%string := c; "complexity"%string := d ]} in
  m !! "lines_of_code"%string = Some a /\ m !! "functions"%string = Some b /\
  m !! "classes"%string = Some c /\ m !! "complexity"%string = Some d.
Proof. cbv zeta. repeat split; now simplify_map_eq. Qed.

Lemma static_score_zero_metrics : static_score zero_metrics = Ok f0_0.
Proof. vm_compute. reflexivity. Qed.

Lemma static_analysis_parsed (rt : runtime) (code : str) (tree : node) :
  ast_parse rt code = Ok tree ->
  exists m, _static_analysis rt code = Ok m
            /\ m !! "lines_of_code"%string = Some (1 + Z.of_nat (count_char nl code)).
Proof.
  intros Hparse. unfold _static_analysis. rewrite Hparse.
  eexists. split; [reflexivity|].
  rewrite (proj1 (lookup_metrics _ _ _ _)). unfold len. rewrite split_length.
  f_equal. lia.
Qed.

(** C10. The empty source text, once parsed (to a module without
    statements), gives the metrics 1, 0, 0, 1 and not the all-zero metrics.
    For every source text that parses, [lines_of_code] is 1 plus the number of
    newline characters, hence not 0; so [_static_analysis] returns the
    all-zero metrics only when the text does not parse. *)
Theorem static_analysis_lines_of_code (rt : runtime) :
  (ast_parse rt [] = Ok (Node Module_ []) ->
   _static_analysis rt []
   = Ok {[ "lines_of_code"%string := 1; "functions"%string := 0;
           "classes"%string := 0; "complexity"%string := 1 ]})
  /\ (forall code tree,
        ast_parse rt code = Ok tree ->
        exists m, _static_analysis rt code = Ok m
                  /\ m !! "lines_of_code"%string = Some (1 + Z.of_nat (count_char nl code))
                  /\ m !! "lines_of_code"%string <> Some 0
                  /\ m <> zero_metrics)
  /\ (forall code,
        _static_analysis rt code = Ok zero_metrics ->
        ast_parse rt code = Raise SyntaxError).
Proof.
  assert (Hparsed : forall code tree,
             ast_parse rt code = Ok tree ->
             exists m, _static_analysis rt code = Ok m
                       /\ m !! "lines_of_code"%string = Some (1 + Z.of_nat (count_char nl code))
                       /\ m !! "lines_of_code"%string <> Some 0
                       /\ m <> zero_metrics).
  { intros code tree Hparse.
    destruct (static_analysis_parsed rt code tree Hparse) as (m & Hm & Hloc).
    exists m. split; [exact Hm|]. split; [exact Hloc|].
    assert (Hnz : m !! "lines_of_code"%string <> Some 0).
    { rewrite Hloc. intros E. injection E as E. lia. }
    split; [exact Hnz|].
    intros ->. apply Hnz. reflexivity. }
  split; [|split; [exact Hparsed|]].
  - intros Hparse. unfold _static_analysis. rewrite Hparse. reflexivity.
  - intros code Hzero. destruct (ast_parse rt code) as [tree|e] eqn:Hparse.
    + destruct (Hparsed code tree Hparse) as (m & Hm & _ & _ & Hne).
      rewrite Hm in Hzero. injection Hzero as ->. now destruct Hne.
    + unfold _static_analysis in Hzero. rewrite Hparse in Hzero.
      destruct e; try discriminate Hzero. reflexivity.
Qed.

Lemma static_analysis_lines_of_code_witness :
  _static_analysis sample_runtime []
  = Ok {[ "lines_of_code"%string := 1; "functions"%string := 0;
          "classes"%string := 0; "complexity"%string := 1 ]}
  /\ (exists m, _static_analysis sample_runtime loop_source = Ok m
                /\ m !! "lines_of_code"%string = Some 3)
  /\ ast_parse sample_runtime broken_source = Raise SyntaxError.
Proof.
  destruct (static_analysis_lines_of_code sample_runtime) as (H1 & H2 & H3).
  split; [apply H1; reflexivity|]. split.
  - destruct (H2 loop_source loop_tree eq_refl) as (m & Hm & Hloc & _).
    exists m. split; [exact Hm | exact Hloc].
  - apply H3. reflexivity.
Defined.

(** ** Floats of integers *)

Lemma digits2_pos_lower (m : positive) :
  2 ^ (Zpos (digits2_pos m) - 1) <= Zpos m.
Proof.
  induction m as [m IH|m IH|]; cbn [digits2_pos]; [| |simpl; lia];
    rewrite Pos2Z.inj_succ;
    replace (Z.succ (Zpos (digits2_pos m)) - 1) with (Z.succ (Zpos (digits2_pos m) - 1))
      by lia;
    rewrite Z.pow_succ_r by lia; lia.
Qed.

Lemma digits2_pos_iter_xO (m k : positive) :
  digits2_pos (Pos.iter xO m k) = (digits2_pos m + k)%positive.
Proof.
  induction k as [|k IH] using Pos.peano_ind.
  - simpl. lia.
  - rewrite Pos.iter_succ. simpl. rewrite IH. lia.
Qed.

(** A mantissa that already has the exponent of its format is not rounded. *)
Lemma binary_round_aux_exact (mz : positive) (ez : Z) :
  fexp prec emax (Zpos (digits2_pos mz) + ez) = ez -> ez <= 971 ->
  binary_round_aux prec emax false (Zpos mz) ez loc_Exact = S754_finite false mz ez.
Proof.
  intros Hf He. unfold binary_round_aux, shr_fexp. cbn [Zdigits2].
  rewrite Hf, Z.sub_diag.
  cbn [shr shr_record_of_loc round_nearest_even loc_of_shr_record shr_m shr_r shr_s Zdigits2].
  rewrite Hf, Z.sub_diag.
  cbn [shr shr_record_of_loc round_nearest_even loc_of_shr_record shr_m shr_r shr_s Zdigits2].
  replace (ez <=? emax - prec) with true; [reflexivity|].
  symmetry. apply Z.leb_le. unfold emax, prec. lia.
Qed.

(** Every count below 2^53 has a float. *)
Lemma float_of_int_small (z : Z) :
  0 <= z < 2 ^ 53 -> exists f, float_of_int z = Ok f.
Proof.
  intros [Hz0 Hz]. unfold float_of_int.
  destruct z as [|m|m]; [now eexists| |lia].
  assert (Hd : Zpos (digits2_pos m) <= 53).
  { pose proof (digits2_pos_lower m) as Hlo.
    destruct (Z_le_gt_dec (Zpos (digits2_pos m)) 53) as [|Hgt]; [assumption|].
    assert (2 ^ 53 <= 2 ^ (Zpos (digits2_pos m) - 1)) by (apply Z.pow_le_mono_r; lia).
    lia. }
  unfold binary_normalize, binary_round.
  assert (Hf : fexp prec emax (Zpos (digits2_pos m) + 0) = Zpos (digits2_pos m) - 53).
  { unfold fexp, emin, prec, emax. lia. }
  rewrite Hf. unfold shl_align.
  destruct (Zpos (digits2_pos m) - 53 - 0) as [|k|k] eqn:Ek; [|lia|].
  - rewrite binary_round_aux_exact; [now eexists| |lia]. rewrite Hf. lia.
  - rewrite binary_round_aux_exact; [now eexists| |lia].
    rewrite digits2_pos_iter_xO. unfold fexp, emin, prec, emax. lia.
Qed.

(** ** Scores *)

Section Scores.

Variable static : gmap string Z.
Variables complexity classes functions : Z.
Variables fc fk ff : float.

Hypothesis complexity_key : static !! "complexity"%string = Some complexity.
Hypothesis classes_key : static !! "classes"%string = Some classes.
Hypothesis functions_key : static !! "functions"%string = Some functions.

(** The three counts as floats. *)
Hypothesis complexity_float : float_of_int complexity = Ok fc.
Hypothesis classes_float : float_of_int classes = Ok fk.
Hypothesis functions_float : float_of_int functions = Ok ff.

Lemma static_score_heuristic :
  static_score static = Ok (heuristic_score fc fk ff).
Proof using All.
  unfold static_score, getitem, int_mul_float.
  rewrite complexity_key, classes_key, functions_key.
  cbn [mbind result_bind mret result_ret].
  rewrite complexity_float, classes_float, functions_float.
  reflexivity.
Qed.

Lemma calculate_final_score_fuse (ai : ai_insights) :
  _calculate_final_score static ai
  = Ok (fuse (heuristic_score fc fk ff) (ai_score ai)).
Proof using All.
  unfold _calculate_final_score. rewrite static_score_heuristic. reflexivity.
Qed.

End Scores.

Lemma min_10_le (x : float) : float_le (min_10 x) f10 = true.
Proof.
  unfold min_10, float_lt, float_le, SFltb, SFleb.
  destruct (SFcompare x f10) as [[| |]|] eqn:E; try reflexivity.
  now rewrite E.
Qed.

(** For counts below 2^53 the static score is returned, and is at most 10. *)
Lemma static_score_total (static : gmap string Z) (complexity classes functions : Z) :
  static !! "complexity"%string = Some complexity ->
  static !! "classes"%string = Some classes ->
  static !! "functions"%string = Some functions ->
  0 <= complexity < 2 ^ 53 -> 0 <= classes < 2 ^ 53 -> 0 <= functions < 2 ^ 53 ->
  exists sc, static_score static = Ok sc /\ float_le sc f10 = true.
Proof.
  intros Hc Hk Hf Rc Rk Rf.
  destruct (float_of_int_small complexity Rc) as [fc Hfc].
  destruct (float_of_int_small classes Rk) as [fk Hfk].
  destruct (float_of_int_small functions Rf) as [ff Hff].
  exists (heuristic_score fc fk ff). split; [|apply min_10_le].
  now apply (static_score_heuristic static complexity classes functions).
Qed.

(** C1. With the three counts of the static metrics as floats, the score
    that [_calculate_final_score] returns is
    [round(s*0.4 + m*0.6, 2)] for the model score [m] and the static score
    [s = min(10, complexity*0.5 + classes*0.3 + functions*0.2)]; static 4.0
    fused with model 6.0 is 5.2. *)
Theorem calculate_final_score_formula
  (static : gmap string Z) (ai : ai_insights)
  (complexity classes functions : Z) (fc fk ff : float) :
  static !! "complexity"%string = Some complexity ->
  static !! "classes"%string = Some classes ->
  static !! "functions"%string = Some functions ->
  float_of_int complexity = Ok fc ->
  float_of_int classes = Ok fk ->
  float_of_int functions = Ok ff ->
  _calculate_final_score static ai
  = Ok (round (float_add
                 (float_mul (min_10 (float_add (float_add (float_mul fc f0_5)
                                                          (float_mul fk f0_3))
                                               (float_mul ff f0_2)))
                            f0_4)
                 (float_mul (ai_score ai) f0_6)) 2)
  /\ fuse (decimal_to_float false 40 1) (decimal_to_float false 60 1)
     = decimal_to_float false 52 1.
Proof.
  intros Hc Hk Hf Hfc Hfk Hff. split.
  - now rewrite (calculate_final_score_fuse static complexity classes functions fc fk ff).
  - vm_compute. reflexivity.
Qed.

Lemma calculate_final_score_formula_witness :
  _calculate_final_score (metrics_of_complexity 8)
                         {| ai_score := decimal_to_float false 60 1; ai_suggestions := [] |}
  = Ok (decimal_to_float false 52 1).
Proof.
  pose proof (calculate_final_score_formula
                (metrics_of_complexity 8)
                {| ai_score := decimal_to_float false 60 1; ai_suggestions := [] |}
                8 0 0 (decimal_to_float false 8 0) f0_0 f0_0
                eq_refl eq_refl eq_refl eq_refl eq_refl eq_refl) as [H _].
  rewrite H. vm_compute. reflexivity.
Defined.

(** C6. The static score is
    [min(10, complexity*0.5 + classes*0.3 + functions*0.2)], so it is at most
    10 however large the weighted sum is; complexity 100 gives the sum 50 and
    the score 10. *)
Theorem static_score_clamped
  (static : gmap string Z) (complexity classes functions : Z) (fc fk ff : float) :
  static !! "complexity"%string = Some complexity ->
  static !! "classes"%string = Some classes ->
  static !! "functions"%string = Some functions ->
  float_of_int complexity = Ok fc ->
  float_of_int classes = Ok fk ->
  float_of_int functions = Ok ff ->
  static_score static
  = Ok (min_10 (float_add (float_add (float_mul fc f0_5) (float_mul fk f0_3))
                          (float_mul ff f0_2)))
  /\ (forall sc, static_score static = Ok sc -> float_le sc f10 = true)
  /\ (float_add (float_add (float_mul (decimal_to_float false 100 0) f0_5)
                           (float_mul f0_0 f0_3))
                (float_mul f0_0 f0_2)
      = decimal_to_float false 50 0
      /\ static_score (metrics_of_complexity 100) = Ok f10).
Proof.
  intros Hc Hk Hf Hfc Hfk Hff.
  pose proof (static_score_heuristic static complexity classes functions fc fk ff
                Hc Hk Hf Hfc Hfk Hff) as E.
  split; [exact E|]. split.
  - intros sc Hsc. rewrite E in Hsc. injection Hsc as <-. apply min_10_le.
  - split; vm_compute; reflexivity.
Qed.

Lemma static_score_clamped_witness :
  static_score (metrics_of_complexity 100) = Ok f10 /\ float_le f10 f10 = true.
Proof.
  pose proof (static_score_clamped (metrics_of_complexity 100) 100 0 0
                (decimal_to_float false 100 0) f0_0 f0_0
                eq_refl eq_refl eq_refl eq_refl eq_refl eq_refl) as (H1 & H2 & _).
  split; [rewrite H1; vm_compute; reflexivity|].
  apply H2. rewrite H1. vm_compute. reflexivity.
Defined.

(** ** The report *)




(** C2 (what the code does). A reply that holds [75/100] is read as the
    score 75: with the metrics of the empty source text the final score is
    45.2, which is above 10. *)
Lemma final_score_above_ten :
  _extract_score (s "Complexity: 75/100") = Ok (decimal_to_float false 75 0)
  /\ exists report,
       analyze_file sample_runtime (replying (s "Complexity: 75/100")) (s "empty.py")
       = Ok report
       /\ score report = decimal_to_float false 452 1
       /\ float_le (score report) f10 = false.
Proof.
  split; [vm_compute; reflexivity|].
  eexists. split; [vm_compute; reflexivity|].
  split; vm_compute; reflexivity.
Qed.

(** ** Suggestions *)

Section Stripping.

Variable p : ascii -> bool.

Lemma drop_while_run (a b : str) :
  Forall (fun c => p c = true) a -> drop_while p (a ++ b) = drop_while p b.
Proof.
  induction 1 as [|c a Hc _ IH]; simpl; [reflexivity|]. now rewrite Hc.
Qed.

Lemma drop_while_stops (b : str) : stops p b -> drop_while p b = b.
Proof.
  destruct b as [|c b]; simpl; [reflexivity|]. now intros ->.
Qed.

Lemma drop_while_keeps_last (l : str) (c : ascii) :
  p c = false -> exists x, drop_while p (l ++ [c]) = x ++ [c].
Proof.
  intros Hc. induction l as [|a l IH]; simpl.
  - rewrite Hc. now exists [].
  - destruct (p a); [exact IH|]. now exists (a :: l).
Qed.

Lemma rev_run (a : str) :
  Forall (fun c => p c = true) a -> Forall (fun c => p c = true) (rev a).
Proof.
  induction 1 as [|c a Hc _ IH]; simpl; [constructor|].
  apply Forall_app. split; [exact IH|]. now repeat constructor.
Qed.

(** Stripping removes the runs at both ends and nothing of a body whose ends
    are outside [p]. *)
Lemma strip_with_body (pre body post : str) :
  Forall (fun c => p c = true) pre -> Forall (fun c => p c = true) post ->
  stops p body -> stops p (rev body) ->
  strip_with p (pre ++ body ++ post) = body.
Proof.
  intros Hpre Hpost Hb Hrb. unfold strip_with.
  rewrite drop_while_run by exact Hpre.
  destruct body as [|c body].
  - simpl. rewrite <- (app_nil_r post), drop_while_run by exact Hpost. reflexivity.
  - rewrite (drop_while_stops ((c :: body) ++ post)) by exact Hb.
    rewrite rev_app_distr, drop_while_run by now apply rev_run.
    rewrite drop_while_stops by exact Hrb. apply rev_involutive.
Qed.

(** The first character of a stripped text is the first character of the
    text that is outside [p]. *)
Lemma strip_with_head (t : str) :
  match drop_while p t with
  | c :: _ => exists r, strip_with p t = c :: r
  | [] => strip_with p t = []
  end.
Proof.
  unfold strip_with. destruct (drop_while p t) as [|c d] eqn:E; [reflexivity|].
  assert (Hc : p c = false).
  { clear -E. induction t as [|a t IH]; simpl in E; [discriminate|].
    destruct (p a) eqn:Ha; [now apply IH|]. now injection E as <- _. }
  simpl rev. destruct (drop_while_keeps_last (rev d) c Hc) as [x ->].
  rewrite rev_app_distr. simpl. now exists (rev x).
Qed.

End Stripping.

Lemma marker_line_startswith (line : str) :
  startswith (s "-") (strip line) = marker_line line.
Proof.
  unfold marker_line, strip. pose proof (strip_with_head isspace line) as H.
  destruct (drop_while isspace line) as [|c d].
  - now rewrite H.
  - destruct H as [r ->]. unfold s. cbn [list_ascii_of_string startswith].
    rewrite andb_true_r. apply Ascii.eqb_sym.
Qed.

Lemma strip_marker_line (pre body post : str) :
  dash_run pre -> dash_run post -> clean_ends body ->
  strip (strip_chars (s "- ") (pre ++ body ++ post)) = body.
Proof.
  intros Hpre Hpost (H1 & H2 & H3 & H4). unfold strip_chars.
  rewrite strip_with_body by assumption.
  unfold strip. rewrite <- (app_nil_r body) at 1.
  apply (strip_with_body isspace [] body []); (constructor || assumption).
Qed.

Lemma lookup_map {A B} (f : A -> B) (l : list A) (i : nat) (x : A) :
  l !! i = Some x -> map f l !! i = Some (f x).
Proof.
  revert i. induction l as [|a l IH]; intros [|i]; simpl; try discriminate.
  - now intros [= ->].
  - apply IH.
Qed.

Lemma filter_marker_lines (lines : list str) :
  List.filter (fun line => startswith (s "-") (strip line)) lines
  = List.filter marker_line lines.
Proof. apply filter_ext. intros line. apply marker_line_startswith. Qed.

Lemma extract_suggestions_length (content : str) :
  length (_extract_suggestions content)
  = Nat.min 5 (length (List.filter marker_line (split nl content))).
Proof.
  unfold _extract_suggestions.
  now rewrite filter_marker_lines, length_take, length_map.
Qed.

Lemma extract_suggestions_entry (content : str) (i : nat) (line : str) :
  List.filter marker_line (split nl content) !! i = Some line -> (i < 5)%nat ->
  _extract_suggestions content !! i = Some (strip (strip_chars (s "- ") line)).
Proof.
  intros Hline Hi. unfold _extract_suggestions.
  rewrite filter_marker_lines, lookup_take_lt by exact Hi.
  now apply (lookup_map (fun l => strip (strip_chars (s "- ") l))).
Qed.

(** C8 (as stated). The entry of a marker line is not always the line without
    its marker and the surrounding whitespace: dashes at the end of the line
    are removed as well. *)
Lemma extract_suggestions_not_marker_stripped :
  ~ (forall content, _extract_suggestions content = marker_lines_stripped content).
Proof.
  intros H. specialize (H (s "- Split the function -")).
  vm_compute in H. discriminate H.
Qed.

Example extract_suggestions_trailing_dash :
  _extract_suggestions (s "- Split the function -") = [s "Split the function"]
  /\ marker_lines_stripped (s "- Split the function -") = [s "Split the function -"].
Proof. split; vm_compute; reflexivity. Qed.

Example extract_suggestions_tab_indented :
  _extract_suggestions (tab :: s "- Add tests") = [s "- Add tests"].
Proof. vm_compute. reflexivity. Qed.

(** ** The classifier *)

Section FloatOrder.

Lemma finite_le (m1 m2 : positive) (e1 e2 : Z) :
  float_le (S754_finite false m1 e1) (S754_finite false m2 e2) = true
  <-> e1 < e2 \/ (e1 = e2 /\ (m1 <= m2)%positive).
Proof.
  unfold float_le, SFleb, SFcompare.
  change (Pos.compare_cont Eq m1 m2) with (Pos.compare m1 m2).
  destruct (Z.compare_spec e1 e2) as [He|He|He];
    [destruct (Pos.compare_spec m1 m2) as [Hm|Hm|Hm]| |];
    split; intros H; try reflexivity; try discriminate H; lia.
Qed.

Lemma probability_shape (x : float) :
  is_probability x ->
  (exists sg, x = S754_zero sg) \/ (exists m e, x = S754_finite false m e).
Proof.
  intros [H0 H1]. destruct x as [sg|sg| |sg m e]; try discriminate H0.
  - left. now exists sg.
  - destruct sg; [discriminate H0|discriminate H1].
  - destruct sg; [discriminate H0|]. right. now exists m, e.
Qed.

Lemma probability_le_refl (x : float) : is_probability x -> float_le x x = true.
Proof.
  intros Hx. destruct (probability_shape x Hx) as [[sg ->]|(m & e & ->)];
    [reflexivity|].
  apply finite_le. right. split; [reflexivity|]. lia.
Qed.

Lemma probability_le_total (x y : float) :
  is_probability x -> is_probability y ->
  float_le x y = false -> float_le y x = true.
Proof.
  intros Hx Hy.
  destruct (probability_shape x Hx) as [[sx ->]|(mx & ex & ->)],
           (probability_shape y Hy) as [[sy ->]|(my & ey & ->)];
    try (intros H; reflexivity || discriminate H).
  intros H. apply finite_le.
  destruct (float_le (S754_finite false mx ex) (S754_finite false my ey)) eqn:E;
    [discriminate H|].
  assert (N : ~ (ex < ey \/ (ex = ey /\ (mx <= my)%positive))).
  { intros C. apply finite_le in C. congruence. }
  lia.
Qed.

Lemma probability_le_trans (x y z : float) :
  is_probability x -> is_probability y -> is_probability z ->
  float_le x y = true -> float_le y z = true -> float_le x z = true.
Proof.
  intros Hx Hy Hz.
  destruct (probability_shape x Hx) as [[sx ->]|(mx & ex & ->)],
           (probability_shape y Hy) as [[sy ->]|(my & ey & ->)],
           (probability_shape z Hz) as [[sz ->]|(mz & ez & ->)];
    try (intros H1 H2; reflexivity || discriminate H1 || discriminate H2).
  rewrite !finite_le. lia.
Qed.

Lemma probability_not_nan (x : float) : is_probability x -> is_nan x = false.
Proof. intros [H0 _]. now destruct x. Qed.

End FloatOrder.

Lemma argmax_scan_max (rest : list float) :
  forall (seen : list float) (mp : float) (max_ind : nat),
    seen !! max_ind = Some mp ->
    (forall j x, seen !! j = Some x -> float_le x mp = true) ->
    Forall is_probability (seen ++ rest) ->
    exists v, (seen ++ rest) !! argmax_scan mp max_ind (length seen) rest = Some v
              /\ forall j x, (seen ++ rest) !! j = Some x -> float_le x v = true.
Proof.
  induction rest as [|x rest IH]; intros seen mp max_ind Hmp Hmax Hall; simpl.
  - rewrite app_nil_r. now exists mp.
  - assert (Hx : is_probability x).
    { apply Forall_app in Hall as [_ Hall]. now apply Forall_cons in Hall as [Hx _]. }
    assert (Hpmp : is_probability mp).
    { apply Forall_app in Hall as [Hseen _].
      rewrite Forall_lookup in Hseen. now apply (Hseen max_ind). }
    assert (Hseen : forall j y, seen !! j = Some y -> is_probability y).
    { apply Forall_app in Hall as [Hseen _]. now rewrite Forall_lookup in Hseen. }
    replace (seen ++ x :: rest) with ((seen ++ [x]) ++ rest) in *
      by now rewrite <- app_assoc.
    replace (S (length seen)) with (length (seen ++ [x]))
      by (rewrite length_app; simpl; lia).
    destruct (float_le x mp) eqn:Hle; simpl.
    + apply IH; [| |exact Hall].
      * rewrite lookup_app_l; [exact Hmp|]. now apply lookup_lt_Some in Hmp.
      * intros j y Hj. apply lookup_app_Some in Hj as [Hj|[_ Hj]]; [now apply (Hmax j)|].
        apply list_lookup_singleton_Some in Hj as [_ <-]. exact Hle.
    + rewrite (probability_not_nan x Hx).
      apply (IH (seen ++ [x]) x (length seen)); [| |exact Hall].
      * rewrite lookup_app_r by lia. now rewrite Nat.sub_diag.
      * intros j y Hj. apply lookup_app_Some in Hj as [Hj|[_ Hj]].
        -- apply (probability_le_trans y mp x);
             [now apply (Hseen j)|exact Hpmp|exact Hx|now apply (Hmax j)|].
           now apply probability_le_total.
        -- apply list_lookup_singleton_Some in Hj as [_ <-].
           now apply probability_le_refl.
Qed.

Lemma np_argmax_max (row : list float) :
  row <> [] -> Forall is_probability row ->
  exists idx v, np_argmax row = Ok idx /\ row !! idx = Some v
                /\ forall j x, row !! j = Some x -> float_le x v = true.
Proof.
  intros Hne Hall. destruct row as [|x rest]; [contradiction|].
  assert (Hx : is_probability x) by now apply Forall_cons in Hall as [Hx _].
  unfold np_argmax. rewrite (probability_not_nan x Hx).
  destruct (argmax_scan_max rest [x] x 0%nat) as (v & Hv & Hmax).
  - reflexivity.
  - intros [|j] y Hj; [|discriminate Hj]. injection Hj as <-.
    now apply probability_le_refl.
  - exact Hall.
  - now exists (argmax_scan x 0 1 rest), v.
Qed.

(** C9. For every text, the empty one included, when the model answers with
    a row of four class scores between 0 and 1, [predict] returns a tier
    among beginner, intermediate, advanced and expert, the one at the position
    of the largest score, and that score as the confidence, which is between 0
    and 1. *)
Theorem predict_tier_and_confidence
  (self : IssueDifficultyClassifier) (issue_text : str)
  (row : list float) (more : list (list float)) :
  model_predict self (tokenizer self issue_text) = Ok (row :: more) ->
  length row = 4%nat ->
  Forall is_probability row ->
  exists tier confidence idx,
    predict self issue_text = Ok (tier, confidence)
    /\ In tier DIFFICULTY_LEVELS
    /\ DIFFICULTY_LEVELS !! idx = Some tier
    /\ row !! idx = Some confidence
    /\ (forall j x, row !! j = Some x -> float_le x confidence = true)
    /\ float_le f0_0 confidence = true
    /\ float_le confidence f1_0 = true.
Proof.
  intros Hmodel Hlen Hall.
  destruct (np_argmax_max row) as (idx & v & Harg & Hv & Hmax);
    [now destruct row|exact Hall|].
  assert (Hidx : (idx < 4)%nat) by (rewrite <- Hlen; now apply lookup_lt_Some in Hv).
  assert (Hprob : is_probability v).
  { rewrite Forall_lookup in Hall. now apply (Hall idx). }
  assert (Htier : exists tier, DIFFICULTY_LEVELS !! idx = Some tier /\ In tier DIFFICULTY_LEVELS).
  { destruct idx as [|[|[|[|idx]]]]; [| | | |lia]; eexists; (split; [reflexivity|]);
      simpl; tauto. }
  destruct Htier as (tier & Htier & Hin).
  exists tier, v, idx.
  split; [|repeat split; try assumption; apply Hprob].
  unfold predict. rewrite Hmodel. cbn [mbind result_bind index lookup list_lookup].
  rewrite Harg. cbn [mbind result_bind]. unfold index. rewrite Hv, Htier. reflexivity.
Qed.

Lemma predict_tier_and_confidence_witness :
  predict sample_classifier [] = Ok (s "intermediate", decimal_to_float false 6 1).
Proof.
  destruct (predict_tier_and_confidence sample_classifier []
              [decimal_to_float false 1 1; decimal_to_float false 6 1;
               decimal_to_float false 2 1; decimal_to_float false 1 1] [])
    as (tier & confidence & idx & Hpredict & _).
  - reflexivity.
  - reflexivity.
  - repeat constructor.
  - rewrite Hpredict. vm_compute in Hpredict. now injection Hpredict as <- <-.
Defined.

(** * Further properties *)

(** ** The walk visits every node once *)

Lemma walk_queue_preorder (todo : list node) :
  walk_queue todo ≡ₚ concat (map preorder todo).
Proof.
  funelim (walk_queue todo); simp walk_queue; [reflexivity|].
  cbn [map concat preorder]. rewrite H, List.map_app, concat_app.
  cbn [app]. constructor. apply Permutation_app_comm.
Qed.

Lemma preorder_length (todo : list node) :
  length (walk_queue todo) = forest_size todo.
Proof.
  funelim (walk_queue todo); simp walk_queue; [reflexivity|].
  cbn [length]. rewrite H. unfold forest_size.
  rewrite List.map_app, list_sum_app. simpl. lia.
Qed.

Lemma walk_length (tree : node) : length (walk tree) = size tree.
Proof.
  unfold walk. rewrite preorder_length. unfold forest_size. simpl. lia.
Qed.

(** [ast.walk] yields the root first and then every node of the tree
    exactly once: the nodes yielded are a rearrangement of the nodes of the
    tree, and there are as many as the tree has. *)
Theorem walk_visits_every_node_once (tree : node) :
  (exists others, walk tree = tree :: others)
  /\ walk tree ≡ₚ preorder tree
  /\ length (walk tree) = size tree.
Proof.
  unfold walk. split; [|split].
  - destruct tree as [c cs]. simp walk_queue. eauto.
  - rewrite walk_queue_preorder. simpl. now rewrite app_nil_r.
  - apply (walk_length tree).
Qed.

(** ** The metrics of a parsed text *)

Lemma filter_length_le {A} (p : A -> bool) (l : list A) :
  (length (List.filter p l) <= length l)%nat.
Proof.
  induction l as [|a l IH]; simpl; [lia|]. destruct (p a); simpl; lia.
Qed.

Lemma disjoint_filters {A} (p q r : A -> bool) (l : list A) :
  (forall a, p a = true -> q a = false /\ r a = false) ->
  (forall a, q a = true -> r a = false) ->
  (length (List.filter p l) + length (List.filter q l) + length (List.filter r l)
   <= length l)%nat.
Proof.
  intros Hp Hq. induction l as [|a l IH]; simpl; [lia|].
  destruct (p a) eqn:Ep.
  - destruct (Hp a Ep) as [-> ->]. simpl. lia.
  - destruct (q a) eqn:Eq.
    + rewrite (Hq a Eq). simpl. lia.
    + destruct (r a); simpl; lia.
Qed.

Lemma static_analysis_ok (rt : runtime) (code : str) (tree : node) :
  ast_parse rt code = Ok tree ->
  _static_analysis rt code
  = Ok {[ "lines_of_code"%string := len (split nl code);
          "functions"%string := len (List.filter is_FunctionDef (walk tree));
          "classes"%string := len (List.filter is_ClassDef (walk tree));
          "complexity"%string := _cyclomatic_complexity tree ]}.
Proof. intros H. unfold _static_analysis. now rewrite H. Qed.

(** X1. For a text that parses, [functions] is the number of [FunctionDef]
    nodes of the tree at any depth (methods and nested functions included,
    [async def] not), [classes] the number of [ClassDef] nodes, and the three
    kinds of counted nodes are distinct nodes: [functions + classes +
    complexity - 1] is at most the number of nodes of the tree. *)
Theorem static_analysis_counts (rt : runtime) (code : str) (tree : node) :
  ast_parse rt code = Ok tree ->
  exists m,
    _static_analysis rt code = Ok m
    /\ m !! "functions"%string = Some (Z.of_nat (count_nodes is_FunctionDef tree))
    /\ m !! "classes"%string = Some (Z.of_nat (count_nodes is_ClassDef tree))
    /\ m !! "complexity"%string = Some (1 + Z.of_nat (branch_nodes tree))
    /\ (count_nodes is_FunctionDef tree + count_nodes is_ClassDef tree
        + branch_nodes tree <= size tree)%nat.
Proof.
  intros Hparse. eexists. split; [apply (static_analysis_ok rt code tree Hparse)|].
  destruct (lookup_metrics (len (split nl code))
              (len (List.filter is_FunctionDef (walk tree)))
              (len (List.filter is_ClassDef (walk tree)))
              (_cyclomatic_complexity tree)) as (_ & Hf & Hc & Hx).
  rewrite Hf, Hc, Hx. unfold len. rewrite !filter_walk.
  unfold _cyclomatic_complexity. rewrite count_loop, filter_walk.
  repeat split.
  unfold branch_nodes. rewrite <- !filter_walk.
  rewrite <- (walk_length tree).
  apply disjoint_filters.
  - intros [c cs]. unfold is_FunctionDef, is_ClassDef, is_branch. simpl.
    destruct c; try discriminate; auto.
  - intros [c cs]. unfold is_ClassDef, is_branch. simpl.
    destruct c; try discriminate; auto.
Qed.

Lemma static_analysis_counts_witness :
  exists m,
    _static_analysis sample_runtime loop_source = Ok m
    /\ m !! "functions"%string = Some 0
    /\ m !! "classes"%string = Some 0
    /\ m !! "complexity"%string = Some 3.
Proof.
  destruct (static_analysis_counts sample_runtime loop_source loop_tree eq_refl)
    as (m & Hm & Hf & Hc & Hx & _).
  exists m. repeat split; assumption.
Defined.

(** ** When the analysis of a file succeeds, and how it fails *)

Lemma static_score_parsed (tree : node) (loc : Z) :
  Z.of_nat (size tree) < 2 ^ 52 ->
  exists sc,
    static_score {[ "lines_of_code"%string := loc;
                    "functions"%string := len (List.filter is_FunctionDef (walk tree));
                    "classes"%string := len (List.filter is_ClassDef (walk tree));
                    "complexity"%string := _cyclomatic_complexity tree ]}
    = Ok sc.
Proof.
  intros Hsize.
  destruct (lookup_metrics loc
              (len (List.filter is_FunctionDef (walk tree)))
              (len (List.filter is_ClassDef (walk tree)))
              (_cyclomatic_complexity tree)) as (_ & Hf & Hc & Hx).
  pose proof (filter_length_le is_FunctionDef (walk tree)) as Lf.
  pose proof (filter_length_le is_ClassDef (walk tree)) as Lc.
  pose proof (filter_length_le is_branch (walk tree)) as Lb.
  rewrite walk_length in Lf, Lc, Lb.
  assert (Hcx : _cyclomatic_complexity tree
                = 1 + Z.of_nat (length (List.filter is_branch (walk tree)))).
  { unfold _cyclomatic_complexity. now rewrite count_loop. }
  assert (H52 : 2 ^ 53 = 2 * 2 ^ 52) by reflexivity.
  destruct (static_score_total _ _ _ _ Hx Hc Hf) as (sc & Hsc & _);
    unfold len; try lia.
  now exists sc.
Qed.

(** X2. Once the file is read and the service has replied, the analysis
    returns a report whatever the reply says, for a text that does not parse
    and for one that parses to fewer than 2^52 nodes; the report carries the
    metrics of the static analysis and the suggestions of the reply, five at
    most. *)
Theorem analyze_file_succeeds
  (rt : runtime) (self : CodeAnalyzer) (file_path code content : str) :
  open_read rt file_path = Ok code ->
  (ast_parse rt code = Raise SyntaxError
   \/ exists tree, ast_parse rt code = Ok tree /\ Z.of_nat (size tree) < 2 ^ 52) ->
  create self (request self code) = Ok content ->
  exists report,
    analyze_file rt self file_path = Ok report
    /\ _static_analysis rt code = Ok (metrics report)
    /\ suggestions report = _extract_suggestions content
    /\ (length (suggestions report) <= 5)%nat.
Proof.
  intros Hread Hparse Hreply.
  destruct (extract_score_total content) as [sc Hsc].
  assert (Hstatic : exists m ss, _static_analysis rt code = Ok m /\ static_score m = Ok ss).
  { destruct Hparse as [Hsyn|(tree & Htree & Hsize)].
    - exists zero_metrics, f0_0. split; [|apply static_score_zero_metrics].
      unfold _static_analysis. now rewrite Hsyn.
    - destruct (static_score_parsed tree (len (split nl code)) Hsize) as [ss Hss].
      eexists _, ss. split; [apply (static_analysis_ok rt code tree Htree)|exact Hss]. }
  destruct Hstatic as (m & ss & Hm & Hss).
  unfold analyze_file. rewrite Hread. cbn [mbind result_bind].
  rewrite Hm. cbn [mbind result_bind].
  unfold _ai_analysis. rewrite Hreply. cbn [mbind result_bind].
  rewrite Hsc. cbn [mbind result_bind mret result_ret].
  unfold _calculate_final_score. rewrite Hss.
  cbn [mbind result_bind mret result_ret].
  eexists. split; [reflexivity|]. cbn. repeat split.
  rewrite extract_suggestions_length. lia.
Qed.

Lemma analyze_file_succeeds_witness :
  exists report,
    analyze_file sample_runtime (replying (s "no rating here")) (s "loop.py") = Ok report
    /\ suggestions report = [].
Proof.
  destruct (analyze_file_succeeds sample_runtime (replying (s "no rating here"))
              (s "loop.py") loop_source (s "no rating here"))
    as (report & Hreport & _ & Hsugg & _).
  - reflexivity.
  - right. exists loop_tree. split; [reflexivity|]. vm_compute. reflexivity.
  - reflexivity.
  - exists report. split; [exact Hreport|]. rewrite Hsugg. vm_compute. reflexivity.
Defined.

(** X3. The failures of the analysis are those of its surroundings,
    unchanged and in this order: the error of reading the file; then what the
    parser raises other than [SyntaxError]; then the error of the service,
    which is asked once the static analysis has returned. *)
Theorem analyze_file_failures
  (rt : runtime) (self : CodeAnalyzer) (file_path : str) (e : exn) :
  (open_read rt file_path = Raise e -> analyze_file rt self file_path = Raise e)
  /\ (forall code,
        open_read rt file_path = Ok code ->
        ast_parse rt code = Raise e -> e <> SyntaxError ->
        analyze_file rt self file_path = Raise e)
  /\ (forall code m,
        open_read rt file_path = Ok code ->
        _static_analysis rt code = Ok m ->
        create self (request self code) = Raise e ->
        analyze_file rt self file_path = Raise e).
Proof.
  unfold analyze_file. split; [|split].
  - now intros ->.
  - intros code -> Hparse Hne. cbn [mbind result_bind].
    unfold _static_analysis. rewrite Hparse. now destruct e.
  - intros code m -> Hm Hreply. cbn [mbind result_bind].
    rewrite Hm. cbn [mbind result_bind]. unfold _ai_analysis. now rewrite Hreply.
Qed.

Lemma analyze_file_failures_witness :
  analyze_file sample_runtime (replying []) (s "missing.py") = Raise OSError
  /\ analyze_file sample_runtime {| model := s "gpt-4"; create := fun _ => Raise APIError |}
       (s "loop.py") = Raise APIError.
Proof.
  split.
  - apply (proj1 (analyze_file_failures sample_runtime (replying []) (s "missing.py") OSError)).
    reflexivity.
  - apply (proj2 (proj2 (analyze_file_failures sample_runtime
                           {| model := s "gpt-4"; create := fun _ => Raise APIError |}
                           (s "loop.py") APIError)) loop_source _ eq_refl eq_refl eq_refl).
Defined.

(** ** The score of a reply is not negative *)

Lemma shr_1_nonneg (mrs : shr_record) : 0 <= shr_m mrs -> 0 <= shr_m (shr_1 mrs).
Proof.
  destruct mrs as [m r st]. cbn [shr_m]. intros Hm.
  destruct m as [|p|p]; [| |lia]; cbn [shr_1]; [cbn; lia|].
  destruct p; cbn; lia.
Qed.

Lemma iter_shr_1_nonneg (n : positive) :
  forall mrs, 0 <= shr_m mrs -> 0 <= shr_m (SpecFloat.iter_pos shr_1 n mrs).
Proof.
  induction n as [n IH|n IH|]; intros mrs Hm; cbn [SpecFloat.iter_pos].
  - apply IH, IH. now apply shr_1_nonneg.
  - now apply IH, IH.
  - now apply shr_1_nonneg.
Qed.

Lemma shr_fexp_nonneg (m e : Z) (l : location) :
  0 <= m -> 0 <= shr_m (fst (shr_fexp prec emax m e l)).
Proof.
  intros Hm. unfold shr_fexp, shr.
  assert (H0 : 0 <= shr_m (shr_record_of_loc m l)) by now destruct l as [|[| |]].
  destruct (fexp prec emax (Zdigits2 m + e) - e); cbn [fst]; try exact H0.
  now apply iter_shr_1_nonneg.
Qed.

Lemma round_nearest_even_nonneg (m : Z) (l : location) :
  0 <= m -> 0 <= round_nearest_even m l.
Proof.
  intros Hm. destruct l as [|[| |]]; cbn [round_nearest_even]; try lia.
  destruct (Z.even m); lia.
Qed.

(** Rounding a mantissa that is not negative, with a positive sign, gives a
    float that is at least zero. *)
Lemma binary_round_aux_nonneg (m e : Z) (l : location) :
  0 <= m -> float_le f0_0 (binary_round_aux prec emax false m e l) = true.
Proof.
  intros Hm. unfold binary_round_aux.
  pose proof (shr_fexp_nonneg m e l Hm) as H1.
  destruct (shr_fexp prec emax m e l) as [mrs1 e1]. cbn [fst] in H1.
  pose proof (shr_fexp_nonneg
                (round_nearest_even (shr_m mrs1) (loc_of_shr_record mrs1)) e1 loc_Exact
                (round_nearest_even_nonneg _ _ H1)) as H2.
  destruct (shr_fexp prec emax _ e1 loc_Exact) as [mrs2 e2]. cbn [fst] in H2.
  destruct (shr_m mrs2) as [|p|p]; [reflexivity| |lia].
  now destruct (e2 <=? emax - prec).
Qed.

Lemma decimal_to_float_nonneg (n : Z) (k : nat) :
  float_le f0_0 (decimal_to_float false n k) = true.
Proof.
  unfold decimal_to_float. destruct n as [|p|p]; try reflexivity.
  unfold SFdiv, SFdiv_core_binary.
  set (d := Z.to_pos (10 ^ Z.of_nat k)).
  set (e' := Z.min _ _). set (m' := match 0 - 0 - e' with 0 => _ | Zpos _ => _ | Zneg _ => _ end).
  assert (Hm' : 0 <= m').
  { subst m'. destruct (0 - 0 - e'); try lia. apply Z.shiftl_nonneg. lia. }
  pose proof (Z.div_pos m' (Zpos d) Hm' ltac:(lia)) as Hq.
  unfold Z.div in Hq.
  destruct (Z.div_eucl m' (Zpos d)) as [q r]. cbn [fst] in Hq.
  now apply binary_round_aux_nonneg.
Qed.

(** X4. The score read from a reply is a number that is at least 0: it is
    never negative (a minus sign before the number is not part of the match)
    and never NaN. *)
Theorem extract_score_not_negative (content : str) :
  exists f, _extract_score content = Ok f /\ float_le f0_0 f = true.
Proof.
  destruct (extract_score_total content) as [f Hf]. exists f. split; [exact Hf|].
  unfold _extract_score in Hf.
  destruct (Re.search_group score_group score_rest content) as [g|].
  - unfold float_of_str in Hf.
    destruct (span isdecimal g) as [[|c ip] [|dot fp]]; try discriminate Hf.
    + injection Hf as <-. apply decimal_to_float_nonneg.
    + destruct (_ && _); [|discriminate Hf].
      injection Hf as <-. apply decimal_to_float_nonneg.
  - injection Hf as <-. reflexivity.
Qed.

Example extract_score_minus_sign :
  _extract_score (s "Rating: -3/10") = Ok (decimal_to_float false 3 0).
Proof. vm_compute. reflexivity. Qed.

(** ** What a suggestion looks like *)

Section StrippedEnds.

Variable p : ascii -> bool.

Lemma drop_while_suffix (t : str) : exists a, t = a ++ drop_while p t.
Proof.
  induction t as [|c t [a IH]]; simpl; [now exists []|].
  destruct (p c); [|now exists []]. exists (c :: a). simpl. now f_equal.
Qed.

Lemma drop_while_head (t : str) : stops p (drop_while p t).
Proof.
  induction t as [|c t IH]; simpl; [exact I|].
  destruct (p c) eqn:Hc; [exact IH|exact Hc].
Qed.

Lemma stops_app (a b : str) : a <> [] -> stops p (a ++ b) -> stops p a.
Proof. destruct a; [contradiction|]. now intros _. Qed.

(** A stripped text neither starts nor ends with a character of [p]. *)
Lemma strip_with_ends (t : str) :
  stops p (strip_with p t) /\ stops p (rev (strip_with p t)).
Proof.
  unfold strip_with.
  set (u := drop_while p t). set (d := drop_while p (rev u)).
  split; [|rewrite rev_involutive; apply drop_while_head].
  destruct (drop_while_suffix (rev u)) as [a Ha]. fold d in Ha.
  destruct d as [|c d'] eqn:Ed; [exact I|].
  apply (f_equal (@rev ascii)) in Ha.
  rewrite rev_involutive, rev_app_distr in Ha.
  apply (stops_app _ (rev a)).
  - intros E. apply (f_equal (@length ascii)) in E.
    rewrite length_rev in E. discriminate E.
  - rewrite <- Ha. apply drop_while_head.
Qed.

Lemma strip_with_keeps (q : ascii -> Prop) (t : str) :
  Forall q t -> Forall q (strip_with p t).
Proof.
  intros H. unfold strip_with.
  assert (D : forall l, Forall q l -> Forall q (drop_while p l)).
  { intros l Hl. induction Hl as [|c l Hc Hl IH]; simpl; [constructor|].
    destruct (p c); [exact IH|now constructor]. }
  apply Forall_rev, D, Forall_rev, D, H.
Qed.

End StrippedEnds.

Lemma split_free (sep : ascii) (t : str) :
  Forall (Forall (fun c => Ascii.eqb c sep = false)) (split sep t).
Proof.
  induction t as [|c t IH]; simpl; [repeat constructor|].
  destruct (Ascii.eqb c sep) eqn:Hc; [now constructor|].
  destruct (split sep t) as [|piece pieces]; [repeat constructor; exact Hc|].
  apply Forall_cons in IH as [Hp Hps]. constructor; [|exact Hps].
  now constructor.
Qed.

Lemma Forall_filter_map {A B} (P : A -> Prop) (Q : B -> Prop) (f : A -> B)
  (keep : A -> bool) (l : list A) :
  (forall a, P a -> Q (f a)) -> Forall P l -> Forall Q (map f (List.filter keep l)).
Proof.
  intros Hf Hl. induction Hl as [|a l Ha _ IH]; simpl; [constructor|].
  destruct (keep a); simpl; [constructor; auto|exact IH].
Qed.

(** X5. Every suggestion is one line without whitespace at either end: it
    neither starts nor ends with a whitespace character and holds no
    newline. *)
Theorem extract_suggestions_trimmed (content : str) :
  Forall (fun entry => stops isspace entry /\ stops isspace (rev entry)
                       /\ free_of is_newline entry)
         (_extract_suggestions content).
Proof.
  unfold _extract_suggestions. apply Forall_take.
  apply (Forall_filter_map (Forall (fun c => Ascii.eqb c nl = false)));
    [|apply split_free].
  intros line Hline. unfold strip.
  destruct (strip_with_ends isspace (strip_chars (s "- ") line)) as [H1 H2].
  split; [exact H1|]. split; [exact H2|].
  unfold free_of, is_newline, strip_chars. now apply strip_with_keeps, strip_with_keeps.
Qed.

(** ** Suggestions of a text in two parts *)

Lemma split_app (sep : ascii) (a b : str) :
  split sep (a ++ sep :: b) = split sep a ++ split sep b.
Proof.
  induction a as [|c a IH]; simpl.
  - now rewrite Ascii.eqb_refl.
  - destruct (Ascii.eqb c sep); [now rewrite IH|].
    rewrite IH. destruct (split sep a) as [|piece pieces] eqn:E; [|reflexivity].
    now apply split_nonempty in E.
Qed.

Lemma take_app_take {A} (n m : nat) (l1 l2 : list A) :
  (n <= m)%nat -> take n (take n l1 ++ take m l2) = take n (l1 ++ l2).
Proof.
  revert l1 m. induction n as [|n IH]; intros l1 m Hnm; [reflexivity|].
  destruct l1 as [|x l1]; simpl.
  - change (take (S n) (take m l2) = take (S n) l2).
    rewrite take_take. f_equal. lia.
  - f_equal. apply IH. lia.
Qed.

Lemma extract_suggestions_all (content : str) :
  _extract_suggestions content = take 5 (all_suggestions content).
Proof.
  unfold _extract_suggestions, all_suggestions. now rewrite filter_marker_lines.
Qed.

(** X6. The suggestions of a text made of two parts joined by a newline are
    the suggestions of the first part followed by those of the second, cut at
    five; once the first part gives five suggestions, what follows changes
    nothing. *)
Theorem extract_suggestions_two_parts (a b : str) :
  _extract_suggestions (a ++ nl :: b)
  = take 5 (_extract_suggestions a ++ _extract_suggestions b)
  /\ (length (_extract_suggestions a) = 5%nat ->
      _extract_suggestions (a ++ nl :: b) = _extract_suggestions a).
Proof.
  assert (E : _extract_suggestions (a ++ nl :: b)
              = take 5 (_extract_suggestions a ++ _extract_suggestions b)).
  { rewrite !extract_suggestions_all. unfold all_suggestions.
    rewrite split_app, List.filter_app, List.map_app.
    symmetry. apply take_app_take. lia. }
  split; [exact E|].
  intros Hlen. rewrite E, take_app_le by lia.
  rewrite extract_suggestions_all. now rewrite take_take.
Qed.

Lemma extract_suggestions_two_parts_witness :
  _extract_suggestions
    ((s "-a" ++ nl :: s "-b" ++ nl :: s "-c" ++ nl :: s "-d" ++ nl :: s "-e") ++ nl :: s "-f")
  = [s "a"; s "b"; s "c"; s "d"; s "e"].
Proof.
  rewrite (proj2 (extract_suggestions_two_parts
                    (s "-a" ++ nl :: s "-b" ++ nl :: s "-c" ++ nl :: s "-d" ++ nl :: s "-e")
                    (s "-f"))).
  - vm_compute. reflexivity.
  - vm_compute. reflexivity.
Defined.

(** ** What the service is sent *)

Lemma prompt_take (code : str) : prompt (take 2000 code) = prompt code.
Proof. unfold prompt. now rewrite take_take. Qed.

(** X7. Only the first 2000 characters of the code are sent to the service:
    two texts that agree on them give the same request, and the prompt is 215
    characters longer than the excerpt, so 2215 characters at most. *)
Theorem ai_analysis_first_2000 (self : CodeAnalyzer) :
  (forall code1 code2,
      take 2000 code1 = take 2000 code2 ->
      request self code1 = request self code2)
  /\ (forall code, length (prompt code) = (215 + Nat.min 2000 (length code))%nat)
  /\ (forall code, (length (prompt code) <= 2215)%nat).
Proof.
  assert (L : forall code,
             length (prompt code) = (215 + Nat.min 2000 (length code))%nat).
  { intros code. unfold prompt. rewrite !length_app, length_take. simpl. lia. }
  split; [|split; [exact L|]].
  - intros code1 code2 E.
    unfold request. now rewrite <- (prompt_take code1), E, prompt_take.
  - intros code. rewrite L. lia.
Qed.

Lemma ai_analysis_first_2000_witness :
  request (replying sample_reply) (repeat "a"%char 2000 ++ s "b")
  = request (replying sample_reply) (repeat "a"%char 2000 ++ s "c").
Proof.
  apply (proj1 (ai_analysis_first_2000 (replying sample_reply))).
  vm_compute. reflexivity.
Defined.

(** ** The keys that the final score reads *)

(** X8. The final score reads the keys [complexity], [classes] and
    [functions] only: the value of [lines_of_code] has no effect on it, and a
    dictionary without [complexity] raises [KeyError] for that key. *)
Theorem calculate_final_score_keys (static : gmap string Z) (ai : ai_insights) :
  (forall v, _calculate_final_score (<["lines_of_code"%string := v]> static) ai
             = _calculate_final_score static ai)
  /\ _calculate_final_score (delete "lines_of_code"%string static) ai
     = _calculate_final_score static ai
  /\ (static !! "complexity"%string = None ->
      _calculate_final_score static ai = Raise (KeyError "complexity")).
Proof.
  unfold _calculate_final_score, static_score, getitem. split; [|split].
  - intros v. now rewrite !lookup_insert_ne by discriminate.
  - now rewrite !lookup_delete_ne by discriminate.
  - now intros ->.
Qed.

Lemma calculate_final_score_keys_witness :
  _calculate_final_score {[ "functions"%string := 2; "classes"%string := 1 ]}
                         {| ai_score := f5_0; ai_suggestions := [] |}
  = Raise (KeyError "complexity").
Proof.
  apply (proj2 (proj2 (calculate_final_score_keys
                         {[ "functions"%string := 2; "classes"%string := 1 ]}
                         {| ai_score := f5_0; ai_suggestions := [] |}))).
  reflexivity.
Defined.

(** ** The outcomes of [predict] *)

Lemma argmax_scan_bound (rest : list float) :
  forall (mp : float) (max_ind i : nat),
    (max_ind < i)%nat -> (argmax_scan mp max_ind i rest < i + length rest)%nat.
Proof.
  induction rest as [|x rest IH]; intros mp max_ind i Hlt; simpl; [lia|].
  destruct (negb (float_le x mp)).
  - destruct (is_nan x); [lia|]. specialize (IH x i (S i)). lia.
  - specialize (IH mp max_ind (S i)). lia.
Qed.

Lemma np_argmax_in_row (row : list float) :
  row <> [] ->
  exists idx entry, np_argmax row = Ok idx /\ row !! idx = Some entry.
Proof.
  intros Hne. destruct row as [|x rest]; [contradiction|].
  eexists. unfold np_argmax.
  assert (B : ((if is_nan x then 0 else argmax_scan x 0 1 rest) < length (x :: rest))%nat).
  { destruct (is_nan x); simpl; [lia|].
    pose proof (argmax_scan_bound rest x 0%nat 1%nat). lia. }
  apply lookup_lt_is_Some in B as [entry He]. now exists entry.
Qed.

(** X9. [predict] fails with the error of the model; with [IndexError] when
    the model gives no row, or when the largest score of the row is at
    position 4 or beyond (a model with more than four outputs); with
    [ValueError] on an empty row.  Otherwise it returns the tier at the
    position of the largest score, and the score there as the confidence. *)
Theorem predict_outcomes (self : IssueDifficultyClassifier) (issue_text : str) :
  (forall e, model_predict self (tokenizer self issue_text) = Raise e ->
             predict self issue_text = Raise e)
  /\ (model_predict self (tokenizer self issue_text) = Ok [] ->
      predict self issue_text = Raise IndexError)
  /\ (forall more, model_predict self (tokenizer self issue_text) = Ok ([] :: more) ->
                   predict self issue_text = Raise ValueError)
  /\ (forall row more,
        model_predict self (tokenizer self issue_text) = Ok (row :: more) ->
        row <> [] ->
        exists idx entry,
          np_argmax row = Ok idx /\ row !! idx = Some entry
          /\ (forall tier, DIFFICULTY_LEVELS !! idx = Some tier ->
                           predict self issue_text = Ok (tier, entry))
          /\ ((4 <= idx)%nat -> predict self issue_text = Raise IndexError)).
Proof.
  unfold predict. split; [|split; [|split]].
  - now intros e ->.
  - now intros ->.
  - now intros more ->.
  - intros row more -> Hne.
    destruct (np_argmax_in_row row Hne) as (idx & entry & Harg & Hentry).
    exists idx, entry. split; [exact Harg|]. split; [exact Hentry|].
    cbn [mbind result_bind index lookup list_lookup].
    rewrite Harg. cbn [mbind result_bind]. unfold index. rewrite Hentry.
    cbn [mbind result_bind]. split.
    + now intros tier ->.
    + intros Hge. destruct idx as [|[|[|[|idx]]]]; try lia. reflexivity.
Qed.

Lemma predict_outcomes_witness :
  predict (answering [f0_2; f0_2; f0_2; f0_2; f0_6]) [] = Raise IndexError.
Proof.
  destruct (proj2 (proj2 (proj2 (predict_outcomes
              (answering [f0_2; f0_2; f0_2; f0_2; f0_6]) [])))
              [f0_2; f0_2; f0_2; f0_2; f0_6] [] eq_refl)
    as (idx & entry & Harg & _ & _ & Hfar); [discriminate|].
  apply Hfar. vm_compute in Harg. injection Harg as <-. lia.
Defined.

(** ** A NaN among the scores *)

Lemma argmax_scan_nan (pre : list float) :
  forall (mp : float) (max_ind i : nat) (post : list float),
    Forall (fun x => is_nan x = false) pre ->
    argmax_scan mp max_ind i (pre ++ S754_nan :: post) = (i + length pre)%nat.
Proof.
  induction pre as [|x pre IH]; intros mp max_ind i post Hpre; simpl.
  - replace (float_le S754_nan mp) with false by now destruct mp.
    simpl. lia.
  - apply Forall_cons in Hpre as [Hx Hpre]. rewrite Hx.
    destruct (negb (float_le x mp)); rewrite IH by exact Hpre; lia.
Qed.

(** X10. When the row of the model holds a NaN, the position chosen is that
    of the first NaN, whatever the other scores: within the four tiers, the
    confidence returned is NaN. *)
Theorem predict_nan_confidence
  (self : IssueDifficultyClassifier) (issue_text : str)
  (pre post : list float) (more : list (list float)) (tier : str) :
  model_predict self (tokenizer self issue_text) = Ok ((pre ++ S754_nan :: post) :: more) ->
  Forall (fun x => is_nan x = false) pre ->
  DIFFICULTY_LEVELS !! length pre = Some tier ->
  np_argmax (pre ++ S754_nan :: post) = Ok (length pre)
  /\ predict self issue_text = Ok (tier, S754_nan).
Proof.
  intros Hmodel Hpre Htier.
  assert (Harg : np_argmax (pre ++ S754_nan :: post) = Ok (length pre)).
  { destruct pre as [|x pre]; [reflexivity|].
    apply Forall_cons in Hpre as [Hx Hpre]. simpl. rewrite Hx.
    now rewrite argmax_scan_nan. }
  split; [exact Harg|].
  unfold predict. rewrite Hmodel. cbn [mbind result_bind index lookup list_lookup].
  rewrite Harg. cbn [mbind result_bind]. unfold index.
  rewrite list_lookup_middle by reflexivity. cbn [mbind result_bind].
  now rewrite Htier.
Qed.

Lemma predict_nan_confidence_witness :
  predict (answering [f0_6; S754_nan; f0_2; f0_2]) [] = Ok (s "intermediate", S754_nan).
Proof.
  apply (predict_nan_confidence (answering [f0_6; S754_nan; f0_2; f0_2]) []
           [f0_6] [f0_2; f0_2] [] (s "intermediate")).
  - reflexivity.
  - repeat constructor.
  - reflexivity.
Defined.

(** ** Ties between scores *)

Lemma argmax_scan_first (rest : list float) :
  forall (seen : list float) (mp : float) (max_ind : nat),
    seen !! max_ind = Some mp ->
    (forall j x, seen !! j = Some x -> float_le x mp = true) ->
    (forall j x, (j < max_ind)%nat -> seen !! j = Some x -> float_le mp x = false) ->
    Forall is_probability (seen ++ rest) ->
    exists idx v,
      argmax_scan mp max_ind (length seen) rest = idx
      /\ (seen ++ rest) !! idx = Some v
      /\ (forall j x, (seen ++ rest) !! j = Some x -> float_le x v = true)
      /\ (forall j x, (j < idx)%nat -> (seen ++ rest) !! j = Some x -> float_le v x = false).
Proof.
  induction rest as [|x rest IH]; intros seen mp max_ind Hmp Hmax Hfirst Hall; simpl.
  - rewrite app_nil_r. now exists max_ind, mp.
  - assert (Hx : is_probability x).
    { apply Forall_app in Hall as [_ Hall]. now apply Forall_cons in Hall as [Hx _]. }
    assert (Hseen : forall j y, seen !! j = Some y -> is_probability y).
    { apply Forall_app in Hall as [Hseen _]. now rewrite Forall_lookup in Hseen. }
    pose proof (Hseen max_ind mp Hmp) as Hpmp.
    pose proof (lookup_lt_Some _ _ _ Hmp) as Hlt.
    replace (seen ++ x :: rest) with ((seen ++ [x]) ++ rest) in *
      by now rewrite <- app_assoc.
    replace (S (length seen)) with (length (seen ++ [x]))
      by (rewrite length_app; simpl; lia).
    destruct (float_le x mp) eqn:Hle; simpl.
    + apply IH; [| | |exact Hall].
      * now rewrite lookup_app_l.
      * intros j y Hj. apply lookup_app_Some in Hj as [Hj|[_ Hj]]; [now apply (Hmax j)|].
        apply list_lookup_singleton_Some in Hj as [_ <-]. exact Hle.
      * intros j y Hj Hy. rewrite lookup_app_l in Hy by lia. now apply (Hfirst j).
    + rewrite (probability_not_nan x Hx).
      apply (IH (seen ++ [x]) x (length seen)); [| | |exact Hall].
      * rewrite lookup_app_r by lia. now rewrite Nat.sub_diag.
      * intros j y Hj. apply lookup_app_Some in Hj as [Hj|[_ Hj]].
        -- apply (probability_le_trans y mp x);
             [now apply (Hseen j)|exact Hpmp|exact Hx|now apply (Hmax j)|].
           now apply probability_le_total.
        -- apply list_lookup_singleton_Some in Hj as [_ <-].
           now apply probability_le_refl.
      * intros j y Hj Hy. rewrite lookup_app_l in Hy by lia.
        destruct (float_le x y) eqn:Hxy; [|reflexivity].
        assert (float_le x mp = true); [|congruence].
        apply (probability_le_trans x y mp);
          [exact Hx|now apply (Hseen j)|exact Hpmp|exact Hxy|now apply (Hmax j)].
Qed.

Lemma np_argmax_first (row : list float) :
  row <> [] -> Forall is_probability row ->
  exists idx v,
    np_argmax row = Ok idx /\ row !! idx = Some v
    /\ (forall j x, row !! j = Some x -> float_le x v = true)
    /\ (forall j x, (j < idx)%nat -> row !! j = Some x -> float_le v x = false).
Proof.
  intros Hne Hall. destruct row as [|x rest]; [contradiction|].
  assert (Hx : is_probability x) by now apply Forall_cons in Hall as [Hx _].
  unfold np_argmax. rewrite (probability_not_nan x Hx).
  destruct (argmax_scan_first rest [x] x 0%nat) as (idx & v & Hidx & Hv & Hmax & Hfirst).
  - reflexivity.
  - intros [|j] y Hj; [|discriminate Hj]. injection Hj as <-.
    now apply probability_le_refl.
  - intros j y Hj. lia.
  - exact Hall.
  - exists idx, v. simpl in Hidx. rewrite Hidx. now repeat split.
Qed.

Lemma predict_probabilities
  (self : IssueDifficultyClassifier) (issue_text : str)
  (row : list float) (more : list (list float)) :
  model_predict self (tokenizer self issue_text) = Ok (row :: more) ->
  length row = 4%nat -> Forall is_probability row ->
  exists idx tier v,
    predict self issue_text = Ok (tier, v)
    /\ DIFFICULTY_LEVELS !! idx = Some tier /\ row !! idx = Some v
    /\ (forall j x, row !! j = Some x -> float_le x v = true)
    /\ (forall j x, (j < idx)%nat -> row !! j = Some x -> float_le v x = false).
Proof.
  intros Hmodel Hlen Hall.
  destruct (np_argmax_first row) as (idx & v & Harg & Hv & Hmax & Hfirst);
    [now destruct row|exact Hall|].
  assert (Hidx : (idx < 4)%nat) by (rewrite <- Hlen; now apply lookup_lt_Some in Hv).
  destruct (lookup_lt_is_Some_2 DIFFICULTY_LEVELS idx Hidx) as [tier Htier].
  exists idx, tier, v.
  split; [|now repeat split].
  unfold predict. rewrite Hmodel. cbn [mbind result_bind index lookup list_lookup].
  rewrite Harg. cbn [mbind result_bind]. unfold index. now rewrite Hv, Htier.
Qed.

(** X11. Among equal largest scores the first one wins: for a row of four
    scores between 0 and 1, every score before the position chosen is
    strictly below the confidence, and no score is above it. *)
Theorem predict_first_maximum
  (self : IssueDifficultyClassifier) (issue_text : str)
  (row : list float) (more : list (list float)) :
  model_predict self (tokenizer self issue_text) = Ok (row :: more) ->
  length row = 4%nat -> Forall is_probability row ->
  exists idx tier confidence,
    predict self issue_text = Ok (tier, confidence)
    /\ DIFFICULTY_LEVELS !! idx = Some tier
    /\ row !! idx = Some confidence
    /\ (forall j x, row !! j = Some x -> float_le x confidence = true)
    /\ (forall j x, (j < idx)%nat -> row !! j = Some x ->
                    float_le confidence x = false /\ float_lt x confidence = true).
Proof.
  intros Hmodel Hlen Hall.
  destruct (predict_probabilities self issue_text row more Hmodel Hlen Hall)
    as (idx & tier & v & Hp & Htier & Hv & Hmax & Hfirst).
  exists idx, tier, v. repeat split; try assumption.
  - now apply (Hfirst j).
  - pose proof (Hfirst j x H H0) as Hvx. pose proof (Hmax j x H0) as Hxv.
    unfold float_lt, float_le, SFltb, SFleb in *.
    destruct (SFcompare x v) as [[| |]|] eqn:E1; try discriminate Hxv; [|reflexivity].
    exfalso. rewrite Forall_lookup in Hall.
    destruct (probability_shape x (Hall j x H0)) as [[sx ->]|(mx & ex & ->)],
             (probability_shape v (Hall idx v Hv)) as [[sv ->]|(mv & ev & ->)];
      try discriminate E1; try discriminate Hvx.
    simpl in E1, Hvx.
    destruct (Z.compare_spec ex ev) as [He|He|He]; try discriminate E1.
    subst ev. rewrite Z.compare_refl in Hvx.
    change (Pos.compare_cont Eq mx mv) with (Pos.compare mx mv) in E1.
    change (Pos.compare_cont Eq mv mx) with (Pos.compare mv mx) in Hvx.
    rewrite Pos.compare_antisym in Hvx.
    destruct (Pos.compare mx mv); simpl in Hvx; congruence.
Qed.

Lemma predict_first_maximum_witness :
  predict (answering [f0_2; f0_3; f0_3; f0_2]) [] = Ok (s "intermediate", f0_3).
Proof.
  destruct (predict_first_maximum (answering [f0_2; f0_3; f0_3; f0_2]) []
              [f0_2; f0_3; f0_3; f0_2] [] eq_refl eq_refl)
    as (idx & tier & confidence & Hp & _).
  - repeat constructor.
  - rewrite Hp. vm_compute in Hp. now injection Hp as <- <-.
Defined.

(** ** The classification endpoint *)

Lemma beginner_position (idx : nat) (tier : str) :
  DIFFICULTY_LEVELS !! idx = Some tier ->
  (str_eq tier (s "beginner") = true <-> idx = 0%nat).
Proof.
  intros H. destruct idx as [|[|[|[|idx]]]]; simpl in H; try discriminate H;
    injection H as <-; split; intros E; try reflexivity; try discriminate E;
    vm_compute in E; discriminate E.
Qed.

(** X12. The endpoint passes on what [predict] raises.  For a row of four
    scores between 0 and 1 it answers with the tier and the confidence of
    [predict], and recommends the issue for beginners exactly when no score
    of the row is above the first one (a tie with the first score counts for
    beginner). *)
Theorem classify_issue_recommendation
  (self : IssueDifficultyClassifier) (issue_text : str) :
  (forall e, predict self issue_text = Raise e -> classify_issue self issue_text = Raise e)
  /\ (forall row more first,
        model_predict self (tokenizer self issue_text) = Ok (row :: more) ->
        length row = 4%nat -> Forall is_probability row ->
        row !! 0%nat = Some first ->
        exists answer tier,
          classify_issue self issue_text = Ok answer
          /\ predict self issue_text = Ok (tier, confidence answer)
          /\ difficulty answer = tier
          /\ (recommended_for_beginners answer = true
              <-> forall j x, row !! j = Some x -> float_le x first = true)).
Proof.
  split.
  - intros e He. unfold classify_issue. now rewrite He.
  - intros row more first Hmodel Hlen Hall Hfirst0.
    destruct (predict_probabilities self issue_text row more Hmodel Hlen Hall)
      as (idx & tier & v & Hp & Htier & Hv & Hmax & Hfirst).
    eexists _, tier. unfold classify_issue. rewrite Hp.
    cbn [mbind result_bind mret result_ret].
    split; [reflexivity|]. cbn [difficulty confidence recommended_for_beginners].
    split; [reflexivity|]. split; [reflexivity|].
    rewrite (beginner_position idx tier Htier). split.
    + intros ->. rewrite Hfirst0 in Hv. injection Hv as ->. exact Hmax.
    + intros Hall0. destruct idx as [|idx]; [reflexivity|]. exfalso.
      pose proof (Hfirst 0%nat first ltac:(lia) Hfirst0) as Hlt.
      pose proof (Hall0 (S idx) v Hv) as Hle. congruence.
Qed.

Lemma classify_issue_recommendation_witness :
  exists answer,
    classify_issue (answering [f0_3; f0_3; f0_2; f0_2]) [] = Ok answer
    /\ recommended_for_beginners answer = true.
Proof.
  destruct (proj2 (classify_issue_recommendation (answering [f0_3; f0_3; f0_2; f0_2]) [])
              [f0_3; f0_3; f0_2; f0_2] [] f0_3 eq_refl eq_refl)
    as (answer & tier & Hanswer & _ & _ & Hrec).
  - repeat constructor.
  - reflexivity.
  - exists answer. split; [exact Hanswer|]. apply Hrec.
    intros [|[|[|[|j]]]] x Hx; try discriminate Hx; injection Hx as <-; reflexivity.
Defined.

(** ** The features of an issue text *)

Lemma split_words_count (t : str) :
  forall cur,
    (2 * length (split_words t cur)
     <= length t + match cur with [] => 1 | _ => 2 end)%nat.
Proof.
  induction t as [|c t IH]; intros cur; simpl.
  - destruct cur; simpl; lia.
  - destruct (isspace c).
    + destruct cur; [specialize (IH []); simpl in *; lia|].
      specialize (IH []). simpl in *. lia.
    + specialize (IH (c :: cur)). simpl in IH. destruct cur; lia.
Qed.

Lemma split_words_empty (t : str) :
  forall cur,
    split_words t cur = [] <-> cur = [] /\ Forall (fun c => isspace c = true) t.
Proof.
  induction t as [|c t IH]; intros cur; simpl.
  - destruct cur; split; try discriminate; auto. intros [E _]. discriminate E.
  - destruct (isspace c) eqn:Hc.
    + destruct cur.
      * rewrite IH. split; intros [_ H]; (split; [reflexivity|]);
          [now constructor|now apply Forall_cons in H as [_ H]].
      * split; [discriminate|]. intros [E _]. discriminate E.
    + rewrite IH. split; [intros [E _]; discriminate E|].
      intros [_ H]. apply Forall_cons in H as [H _]. congruence.
Qed.

Lemma startswith_length (w t : str) :
  startswith w t = true -> (length w <= length t)%nat.
Proof.
  revert t. induction w as [|a w IH]; intros [|b t]; simpl; try lia; try discriminate.
  intros H. apply andb_true_iff in H as [_ H]. apply IH in H. lia.
Qed.

Lemma contains_length (w t : str) :
  contains w t = true -> (length w <= length t)%nat.
Proof.
  induction t as [|c t IH]; simpl.
  - rewrite orb_false_r. apply startswith_length.
  - intros H. apply orb_true_iff in H as [H|H].
    + now apply startswith_length in H.
    + apply IH in H. lia.
Qed.

(** X13. The feature vector has five entries: the length of the text; the
    number of words, which is 0 exactly for a text of whitespace only and at
    most half of the length plus one; the two flags, each 0 or 1, the code
    flag being set only for a text of three characters or more; and the
    number of complexity words, between 0 and 4. *)
Theorem extract_feature_ranges (text : str) :
  exists word_count has_code has_error complexity_words,
    extract text = [len text; word_count; has_code; has_error; complexity_words]
    /\ 0 <= word_count /\ 2 * word_count <= len text + 1
    /\ (word_count = 0 <-> Forall (fun c => isspace c = true) text)
    /\ (has_code = 0 \/ has_code = 1) /\ (has_code = 1 -> 3 <= len text)
    /\ (has_error = 0 \/ has_error = 1)
    /\ 0 <= complexity_words <= 4.
Proof.
  unfold extract. do 4 eexists. split; [reflexivity|].
  pose proof (split_words_count text []) as Hwc. simpl in Hwc.
  unfold len, split_whitespace.
  split; [lia|]. split; [lia|]. split.
  { pose proof (split_words_empty text []) as [H1 H2]. split.
    - intros E. apply H1, length_zero_iff_nil. lia.
    - intros Hws. now rewrite H2. }
  split; [destruct (contains _ text); auto|]. split.
  { destruct (contains (s "```") text) eqn:E; [|discriminate].
    intros _. apply contains_length in E. simpl in E. lia. }
  split; [destruct (existsb _ _); auto|].
  pose proof (filter_length_le (fun word => contains word (lower text))
                complexity_word_list) as Hcw.
  assert (L : length complexity_word_list = 4%nat) by reflexivity.
  lia.
Qed.

Lemma extract_feature_ranges_witness :
  extract (s "Fix the BUG in ```parse```") = [26; 5; 1; 1; 0].
Proof.
  destruct (extract_feature_ranges (s "Fix the BUG in ```parse```"))
    as (wc & hc & he & cw & E & _).
  rewrite E. vm_compute in E. now injection E as <- <- <- <-.
Defined.

Lemma startswith_app (w t : str) : startswith w (w ++ t) = true.
Proof.
  induction w as [|a w IH]; simpl; [reflexivity|].
  now rewrite Ascii.eqb_refl, IH.
Qed.

Lemma contains_startswith (w t : str) :
  startswith w t = true -> contains w t = true.
Proof. intros H. destruct t; simpl; now rewrite H. Qed.

Lemma contains_app (w pre post : str) : contains w (pre ++ w ++ post) = true.
Proof.
  induction pre as [|c pre IH]; simpl.
  - apply contains_startswith, startswith_app.
  - rewrite IH. apply orb_true_r.
Qed.

(** X14. The error flag looks for the words without regard to letter case
    and inside longer words too: a text that holds one of [error], [bug],
    [exception] in any mix of capital and small letters, anywhere, has the
    flag set. *)
Theorem extract_has_error_substring (pre w post : str) :
  In (lower w) error_words ->
  exists length_ word_count has_code complexity_words,
    extract (pre ++ w ++ post) = [length_; word_count; has_code; 1; complexity_words].
Proof.
  intros Hw. unfold extract. do 4 eexists.
  replace (existsb _ error_words) with true; [reflexivity|].
  symmetry. apply existsb_exists. exists (lower w). split; [exact Hw|].
  unfold lower. rewrite !List.map_app. apply contains_app.
Qed.

Lemma extract_has_error_substring_witness :
  exists length_ word_count has_code complexity_words,
    extract (s "still de" ++ s "BuG" ++ s "ging the parser")
    = [length_; word_count; has_code; 1; complexity_words].
Proof.
  apply (extract_has_error_substring (s "still de") (s "BuG") (s "ging the parser")).
  right. left. reflexivity.
Defined.

(** ** Replies without a slash *)

(** X15. A reply that holds no slash has the default score 5.0, whatever
    numbers it holds (a rating written [8 out of 10] is not read). *)
Theorem extract_score_needs_slash (content : str) :
  Forall (fun c => c <> "/"%char) content ->
  _extract_score content = Ok f5_0.
Proof.
  intros Hfree. apply extract_score_default.
  intros pre t n -> (_ & post & ->).
  rewrite !Forall_app in Hfree. destruct Hfree as (_ & _ & Hslash & _).
  apply Forall_cons in Hslash as [Hslash _]. now apply Hslash.
Qed.

Lemma extract_score_needs_slash_witness :
  _extract_score (s "I would rate it 8 out of 10") = Ok f5_0.
Proof.
  apply extract_score_needs_slash.
  repeat (constructor; [discriminate|]). constructor.
Defined.

(** * The claims on branches, parse failures and markers, as the code has them *)

(** ** Which nodes the complexity counts *)

Lemma is_branch_classes (n : node) : is_branch n = if_while_for_or_except n.
Proof. destruct n as [c cs]. now destruct c. Qed.

Lemma filter_length_mono {A} (p q : A -> bool) (l : list A) :
  (forall a, p a = true -> q a = true) ->
  (length (List.filter p l) <= length (List.filter q l))%nat.
Proof.
  intros Hpq. induction l as [|a l IH]; simpl; [lia|].
  destruct (p a) eqn:Ep.
  - rewrite (Hpq a Ep). simpl. lia.
  - destruct (q a); simpl; lia.
Qed.

Lemma cyclomatic_complexity_filter (tree : node) :
  _cyclomatic_complexity tree
  = 1 + Z.of_nat (length (List.filter if_while_for_or_except (walk tree))).
Proof.
  unfold _cyclomatic_complexity. rewrite count_loop. do 3 f_equal.
  apply filter_ext. exact is_branch_classes.
Qed.

(** C5 (as stated). The result is not 1 plus the number of conditional, loop
    and exception-handler nodes: an [async for] loop is not counted. *)
Lemma cyclomatic_complexity_misses_async_for :
  ~ (forall tree,
        _cyclomatic_complexity tree
        = 1 + Z.of_nat (count_nodes conditional_loop_or_handler tree)).
Proof.
  intros H. specialize (H async_tree). vm_compute in H. discriminate H.
Qed.

Example cyclomatic_complexity_async_for :
  _cyclomatic_complexity async_tree = 1
  /\ count_nodes conditional_loop_or_handler async_tree = 1%nat.
Proof. split; reflexivity. Qed.

Example cyclomatic_complexity_conditional_expression :
  _cyclomatic_complexity ifexp_tree = 1
  /\ count_nodes conditional_loop_or_handler ifexp_tree = 1%nat.
Proof. split; reflexivity. Qed.

(** C5 (amended). [_cyclomatic_complexity] returns 1 plus the number of nodes
    of the tree that are [if], [while] or [for] statements or [except]
    handlers, each counted once wherever it is nested; so the result is at
    least 1, it is 1 when the tree has no such node, and it is never more
    than 1 plus the number of conditional, loop and exception-handler nodes
    ([async for] loops and conditional expressions are not counted). *)
Theorem cyclomatic_complexity_counts_four_classes (tree : node) :
  _cyclomatic_complexity tree = 1 + Z.of_nat (count_nodes if_while_for_or_except tree)
  /\ 1 <= _cyclomatic_complexity tree
  /\ (count_nodes if_while_for_or_except tree = 0%nat -> _cyclomatic_complexity tree = 1)
  /\ _cyclomatic_complexity tree
     <= 1 + Z.of_nat (count_nodes conditional_loop_or_handler tree).
Proof.
  pose proof (cyclomatic_complexity_filter tree) as E.
  rewrite filter_walk in E.
  split; [exact E|]. split; [lia|]. split; [intros Hz; rewrite E, Hz; reflexivity|].
  rewrite E, <- !filter_walk.
  pose proof (filter_length_mono if_while_for_or_except conditional_loop_or_handler
                (walk tree)) as M.
  assert (Hpq : forall n, if_while_for_or_except n = true ->
                          conditional_loop_or_handler n = true).
  { intros [c cs]. now destruct c. }
  specialize (M Hpq). lia.
Qed.

Lemma cyclomatic_complexity_counts_four_classes_witness :
  _cyclomatic_complexity async_tree = 1 /\ _cyclomatic_complexity loop_tree = 3.
Proof.
  split.
  - apply (cyclomatic_complexity_counts_four_classes async_tree). reflexivity.
  - rewrite (proj1 (cyclomatic_complexity_counts_four_classes loop_tree)). reflexivity.
Defined.

(** ** Which parse failures the static analysis absorbs *)

(** C4 (as stated). A text that fails to parse does not always give the
    all-zero metrics: what the parser raises other than [SyntaxError] leaves
    [_static_analysis]. *)
Lemma static_analysis_raises_value_error :
  ~ (forall rt code,
        (forall tree, ast_parse rt code <> Ok tree) ->
        _static_analysis rt code = Ok zero_metrics).
Proof.
  intros H. specialize (H runtime_311 nul_source).
  assert (N : forall tree, ast_parse runtime_311 nul_source <> Ok tree)
    by (intros tree; discriminate).
  specialize (H N). vm_compute in H. discriminate H.
Qed.

Example static_analysis_nul_character :
  _static_analysis runtime_311 nul_source = Raise ValueError
  /\ analyze_file runtime_311 (replying sample_reply) (s "nul.py") = Raise ValueError.
Proof. split; vm_compute; reflexivity. Qed.

(** C4 (amended). When [ast.parse] raises [SyntaxError] on the source text,
    [_static_analysis] returns the all-zero metrics without raising, and the
    analysis of the file still returns a report, with these metrics, once the
    file is read and the service has replied.  Any other exception of the
    parser is not caught: [_static_analysis] raises it. *)
Theorem static_analysis_syntax_error (rt : runtime) (code : str) :
  (ast_parse rt code = Raise SyntaxError ->
   _static_analysis rt code
   = Ok {[ "lines_of_code"%string := 0; "functions"%string := 0;
           "classes"%string := 0; "complexity"%string := 0 ]}
   /\ forall (self : CodeAnalyzer) (file_path content : str),
        open_read rt file_path = Ok code ->
        create self (request self code) = Ok content ->
        exists report, analyze_file rt self file_path = Ok report
                       /\ metrics report = zero_metrics)
  /\ (forall e, ast_parse rt code = Raise e -> e <> SyntaxError ->
                _static_analysis rt code = Raise e).
Proof.
  split.
  - intros Hparse.
    assert (Hstatic : _static_analysis rt code = Ok zero_metrics).
    { unfold _static_analysis. now rewrite Hparse. }
    split; [exact Hstatic|].
    intros self file_path content Hread Hreply.
    destruct (extract_score_total content) as [sc Hsc].
    unfold analyze_file. rewrite Hread. cbn [mbind result_bind].
    rewrite Hstatic. cbn [mbind result_bind].
    unfold _ai_analysis. rewrite Hreply. cbn [mbind result_bind].
    rewrite Hsc. cbn [mbind result_bind mret result_ret].
    unfold _calculate_final_score. rewrite static_score_zero_metrics.
    cbn [mbind result_bind mret result_ret].
    eexists. split; reflexivity.
  - intros e Hparse Hne. unfold _static_analysis. rewrite Hparse. now destruct e.
Qed.

Lemma static_analysis_syntax_error_witness :
  (_static_analysis sample_runtime broken_source = Ok zero_metrics
   /\ exists report,
        analyze_file sample_runtime (replying sample_reply) (s "broken.py") = Ok report
        /\ metrics report = zero_metrics)
  /\ _static_analysis runtime_311 nul_source = Raise ValueError.
Proof.
  split.
  - destruct (proj1 (static_analysis_syntax_error sample_runtime broken_source) eq_refl)
      as [H1 H2].
    split; [exact H1|].
    apply (H2 (replying sample_reply) (s "broken.py") sample_reply); reflexivity.
  - apply (proj2 (static_analysis_syntax_error runtime_311 nul_source) ValueError).
    + reflexivity.
    + discriminate.
Defined.

(** ** What is stripped from a marker line *)

Section StripParts.

Variable p : ascii -> bool.

Lemma drop_while_app_stops (x y : str) :
  stops p y -> drop_while p (x ++ y) = drop_while p x ++ y.
Proof.
  intros Hy. induction x as [|c x IH]; simpl.
  - now apply drop_while_stops.
  - destruct (p c); [exact IH|reflexivity].
Qed.

Lemma drop_while_all (t : str) :
  Forall (fun c => p c = true) t -> drop_while p t = [].
Proof.
  intros H. rewrite <- (app_nil_r t). now rewrite drop_while_run.
Qed.

Lemma drop_while_prefix_run (t : str) :
  exists a, t = a ++ drop_while p t /\ Forall (fun c => p c = true) a.
Proof.
  induction t as [|c t (a & Ha & Hrun)]; simpl; [now exists []|].
  destruct (p c) eqn:Hc; [|now exists []].
  exists (c :: a). split; [simpl; now f_equal|now constructor].
Qed.

Lemma drop_while_keeps (q : ascii -> Prop) (t : str) :
  Forall q t -> Forall q (drop_while p t).
Proof.
  induction 1 as [|c t Hc Ht IH]; simpl; [constructor|].
  destruct (p c); [exact IH|now constructor].
Qed.

Lemma stops_app_l (x y : str) : x <> [] -> stops p x -> stops p (x ++ y).
Proof. destruct x; [contradiction|]. now intros _. Qed.

Lemma rev_not_nil (x : str) : x <> [] -> rev x <> [].
Proof.
  intros Hx E. apply Hx. apply (f_equal (@rev ascii)) in E.
  now rewrite rev_involutive in E.
Qed.

(** A text is a run, what stripping keeps, and a run. *)
Lemma strip_with_parts (t : str) :
  exists a b,
    t = a ++ strip_with p t ++ b
    /\ Forall (fun c => p c = true) a /\ Forall (fun c => p c = true) b.
Proof.
  unfold strip_with.
  destruct (drop_while_prefix_run t) as (a & Ha & Hrun).
  destruct (drop_while_prefix_run (rev (drop_while p t))) as (c & Hc & Hcrun).
  exists a, (rev c). split; [|split; [exact Hrun|now apply rev_run]].
  rewrite <- rev_app_distr, <- Hc, rev_involutive. exact Ha.
Qed.

(** Stripping on the right only, then on both sides, is stripping. *)
Lemma strip_with_rstrip (t : str) :
  strip_with p (rev (drop_while p (rev t))) = strip_with p t.
Proof.
  destruct (strip_with_parts t) as (a & b & Ht & Ha & Hb).
  destruct (strip_with_ends p t) as [E1 E2].
  set (m := strip_with p t) in *.
  rewrite Ht at 1. rewrite !rev_app_distr, <- app_assoc.
  rewrite drop_while_run by now apply rev_run.
  destruct m as [|c m'] eqn:Em.
  - simpl. rewrite drop_while_all by now apply rev_run. reflexivity.
  - rewrite drop_while_stops
      by (apply stops_app_l; [apply rev_not_nil; discriminate|exact E2]).
    rewrite rev_app_distr, !rev_involutive.
    rewrite <- (app_nil_r (a ++ c :: m')), <- app_assoc.
    now apply strip_with_body; [|constructor| |].
Qed.

End StripParts.

Lemma dash_or_space (c : ascii) :
  is_dash c = false -> isspace c = false -> mem (s "- ") c = false.
Proof.
  unfold is_dash, mem, s. cbn [list_ascii_of_string existsb].
  intros -> Hw. destruct (Ascii.eqb_spec c " "%char) as [->|_]; [discriminate Hw|].
  reflexivity.
Qed.

Lemma strip_chars_whitespace (w post : str) :
  whitespace_run w -> dash_run post ->
  whitespace_run (strip_chars (s "- ") (w ++ post)).
Proof.
  intros Hw Hpost. unfold strip_chars, strip_with.
  induction Hw as [|c w Hc Hw IH]; cbn [app drop_while].
  - rewrite (drop_while_all _ post) by exact Hpost. constructor.
  - destruct (mem (s "- ") c); [exact IH|].
    apply Forall_rev. change (c :: w ++ post) with ((c :: w) ++ post).
    rewrite rev_app_distr, drop_while_run by now apply rev_run.
    apply drop_while_keeps, Forall_rev. now constructor.
Qed.

(** A line made of dashes and spaces, whitespace, a body with clean ends,
    whitespace, and dashes and spaces is reduced to the body. *)
Lemma strip_marker_line_parts (pre wa body wb post : str) :
  dash_run pre -> dash_run post -> whitespace_run wa -> whitespace_run wb ->
  clean_ends body ->
  strip (strip_chars (s "- ") (pre ++ wa ++ body ++ wb ++ post)) = body.
Proof.
  intros Hpre Hpost Hwa Hwb (D1 & D2 & W1 & W2).
  destruct body as [|c body'] eqn:Eb.
  - assert (E : strip_chars (s "- ") (pre ++ wa ++ [] ++ wb ++ post)
                = strip_chars (s "- ") ((wa ++ wb) ++ post)).
    { unfold strip_chars, strip_with. rewrite drop_while_run by exact Hpre.
      simpl. now rewrite <- app_assoc. }
    rewrite E.
    pose proof (strip_chars_whitespace (wa ++ wb) post
                  (proj2 (Forall_app _ _ _) (conj Hwa Hwb)) Hpost) as Hrun.
    unfold strip. rewrite <- (app_nil_r (strip_chars _ _)).
    now apply (strip_with_body isspace _ [] []).
  - rewrite <- Eb in *. assert (Hne : body <> []) by (rewrite Eb; discriminate).
    set (a := drop_while (mem (s "- ")) wa).
    set (b := rev (drop_while (mem (s "- ")) (rev wb))).
    assert (E : strip_chars (s "- ") (pre ++ wa ++ body ++ wb ++ post) = a ++ body ++ b).
    { unfold strip_chars, strip_with. rewrite drop_while_run by exact Hpre.
      rewrite drop_while_app_stops by now apply stops_app_l.
      fold a. rewrite !rev_app_distr, <- !app_assoc.
      rewrite drop_while_run by now apply rev_run.
      rewrite drop_while_app_stops
        by (apply stops_app_l; [now apply rev_not_nil|exact D2]).
      rewrite !rev_app_distr, !rev_involutive, <- app_assoc. reflexivity. }
    rewrite E. unfold strip. apply strip_with_body; try assumption.
    + now apply drop_while_keeps.
    + apply Forall_rev. now apply drop_while_keeps, Forall_rev.
Qed.

Lemma spaces_runs (spaces : str) :
  Forall (fun c => c = " "%char) spaces -> dash_run spaces /\ whitespace_run spaces.
Proof.
  induction 1 as [|c l -> _ [IH1 IH2]]; split; constructor;
    (reflexivity || assumption).
Qed.

(** The line without its marker and the surrounding whitespace, for a marker
    after spaces only: what follows the marker, stripped. *)
Lemma strip_marker_rest (spaces rest : str) :
  Forall (fun c => c = " "%char) spaces ->
  strip_marker (spaces ++ "-"%char :: rest) = strip rest.
Proof.
  intros Hsp. unfold strip_marker.
  destruct (spaces_runs spaces Hsp) as [_ Hws].
  assert (E : strip (spaces ++ "-"%char :: rest)
              = "-"%char :: rev (drop_while isspace (rev rest))).
  { unfold strip, strip_with. rewrite drop_while_run by exact Hws.
    cbn [drop_while]. change (isspace "-"%char) with false. cbn iota.
    cbn [rev]. rewrite drop_while_app_stops by reflexivity.
    now rewrite rev_app_distr. }
  rewrite E. cbn [drop]. apply strip_with_rstrip.
Qed.

(** For a marker after spaces only whose text has no dash at either end, the
    entry is the line without its marker and the surrounding whitespace. *)
Lemma strip_space_indented (line : str) :
  space_indented line ->
  stops is_dash (strip_marker line) -> stops is_dash (rev (strip_marker line)) ->
  strip (strip_chars (s "- ") line) = strip_marker line.
Proof.
  intros (spaces & rest & -> & Hsp) Hd1 Hd2.
  rewrite strip_marker_rest in * by exact Hsp.
  destruct (strip_with_parts isspace rest) as (a & b & Hrest & Ha & Hb).
  destruct (strip_with_ends isspace rest) as [W1 W2].
  fold (strip rest) in *. set (m := strip rest) in *.
  assert (Hline : spaces ++ "-"%char :: rest
                  = (spaces ++ ["-"%char]) ++ a ++ m ++ b ++ []).
  { rewrite Hrest at 1. now rewrite <- !app_assoc, app_nil_r. }
  rewrite Hline. apply strip_marker_line_parts; try assumption.
  - apply Forall_app. split; [apply (spaces_runs spaces Hsp)|now repeat constructor].
  - constructor.
  - assert (C : forall x, stops is_dash x -> stops isspace x -> stops (mem (s "- ")) x).
    { intros [|c x]; [easy|]. apply dash_or_space. }
    repeat split; auto.
Qed.

(** C8 (amended). [_extract_suggestions] returns at most 5 entries: one for
    each of the first five lines whose first character that is not whitespace
    is [-], in the order of the lines.  The entry is the line without its
    marker and the surrounding whitespace when the marker comes after spaces
    only and the text left has no dash at either end.  More generally, dashes
    and spaces go at both ends of the line: for a line made of a run of dashes
    and spaces, whitespace, a body with no dash and no whitespace at either
    end, whitespace, and a run of dashes and spaces, the entry is the body. *)
Theorem extract_suggestions_marker_lines (content : str) :
  let marked := List.filter marker_line (split nl content) in
  (length (_extract_suggestions content) <= 5)%nat
  /\ length (_extract_suggestions content) = Nat.min 5 (length marked)
  /\ forall i line,
       marked !! i = Some line -> (i < 5)%nat ->
       exists entry,
         _extract_suggestions content !! i = Some entry
         /\ (space_indented line ->
             stops is_dash (strip_marker line) ->
             stops is_dash (rev (strip_marker line)) ->
             entry = strip_marker line)
         /\ (forall pre wa body wb post,
               line = pre ++ wa ++ body ++ wb ++ post ->
               dash_run pre -> dash_run post ->
               whitespace_run wa -> whitespace_run wb ->
               clean_ends body ->
               entry = body).
Proof.
  cbv zeta. pose proof (extract_suggestions_length content) as Hlen.
  split; [lia|]. split; [exact Hlen|].
  intros i line Hline Hi. exists (strip (strip_chars (s "- ") line)). split; [|split].
  - apply extract_suggestions_entry; [exact Hline | exact Hi].
  - apply strip_space_indented.
  - intros pre wa body wb post -> Hpre Hpost Hwa Hwb Hbody.
    now apply strip_marker_line_parts.
Qed.

Lemma extract_suggestions_marker_lines_witness :
  _extract_suggestions (s "- Use better names" ++ [nl] ++ s "- Add tests" ++ [cr]) !! 1%nat
  = Some (s "Add tests")
  /\ _extract_suggestions (s "- Split the function -") !! 0%nat
     = Some (s "Split the function").
Proof.
  split.
  - destruct (extract_suggestions_marker_lines
                (s "- Use better names" ++ [nl] ++ s "- Add tests" ++ [cr]))
      as (_ & _ & H).
    destruct (H 1%nat (s "- Add tests" ++ [cr]) eq_refl) as (entry & He & Hclaim & _);
      [lia|].
    transitivity (Some entry); [exact He|]. f_equal.
    rewrite Hclaim; [reflexivity| |reflexivity|reflexivity].
    exists [], (s " Add tests" ++ [cr]). split; [reflexivity|constructor].
  - destruct (extract_suggestions_marker_lines (s "- Split the function -"))
      as (_ & _ & H).
    destruct (H 0%nat (s "- Split the function -") eq_refl) as (entry & He & _ & Hparts);
      [lia|].
    transitivity (Some entry); [exact He|]. f_equal.
    apply (Hparts (s "- ") [] (s "Split the function") [] (s " -")); try reflexivity.
    + repeat constructor.
    + repeat constructor.
    + constructor.
    + constructor.
    + repeat split.
Defined.

Example extract_suggestions_carriage_return :
  _extract_suggestions (s "- Add tests" ++ [cr]) = [s "Add tests"]
  /\ _extract_suggestions (s "- Add tests" ++ [tab]) = [s "Add tests"].
Proof. split; vm_compute; reflexivity. Qed.
